(** * urllib3 on Emscripten: the response wrapper

    A shallow embedding of [src/urllib3/contrib/emscripten/response.py]
    (class [EmscriptenHttpResponseWrapper]) and the properties of its
    length accounting, reads, caching, JSON decoding, connection release
    and retry bookkeeping.

    Conventions of the embedding:
    - a Python [int] is a [Z]; [len] is [Z.of_nat (length _)];
    - a Python [bytes] is a [list byte];
    - a Python [str] is a [string], one character per code point below 256
      (header names and values);
    - a [dict] is a [gmap], a [set] a [gset];
    - a method is a function in a state-and-exception monad over the
      wrapper object: an exception keeps the mutations made before it. *)

From Stdlib Require Import ZArith Ascii.
From stdpp Require Import gmap strings list.
From stdpp Require Import pretty.

Local Open Scope Z_scope.

(** ** Python values *)

Definition bytes := list Byte.byte.

(** [len(b)] *)
Definition len {A} (l : list A) : Z := Z.of_nat (length l).

(** The exceptions the module can raise or let through. [NameError] is
    what the lookup of a name raises that neither the function nor the
    module binds: response.py uses [log], [InvalidHeader] and [read_data]
    and binds none of them. [OverflowError] is what [BytesIO.read] raises
    for a size that does not fit its C argument. [UnicodeDecodeError] and
    [JSONDecodeError] are the two failures of [json]. *)
Inductive exn : Type :=
  | TypeError (msg : string)
  | ValueError (msg : string)
  | NameError (name : string)
  | KeyError (msg : string)
  | AttributeError (msg : string)
  | OverflowError (msg : string)
  | UnicodeDecodeError
  | JSONDecodeError.

Inductive result (A : Type) : Type :=
  | Return (a : A)
  | Raise (e : exn).
Arguments Return {A} a.
Arguments Raise {A} e.

#[global] Instance exn_eq_dec : EqDecision exn.
Proof. solve_decision. Defined.

(** [except ValueError]: which exceptions the clause of [_init_length]
    catches. [UnicodeDecodeError] and [JSONDecodeError] are subclasses of
    [ValueError]. *)
Definition is_ValueError (e : exn) : bool :=
  match e with
  | ValueError _ | UnicodeDecodeError | JSONDecodeError => true
  | _ => false
  end.

(** ** [str.split] and [int] *)

Module PyStr.

(** [s.split(sep)] for a one-character separator: every occurrence cuts,
    so the result has one more piece than there are separators. *)
Fixpoint split (sep : ascii) (s : string) : list string :=
  match s with
  | EmptyString => [EmptyString]
  | String c r =>
      if Ascii.eqb c sep then EmptyString :: split sep r
      else match split sep r with
           | h :: t => String c h :: t
           | [] => [String c EmptyString]
           end
  end.

(** White space that [int] skips on both sides: the C-locale space
    characters, and (after CPython's transformation of non-ASCII text)
    U+0085 and U+00A0. *)
Definition is_space (c : ascii) : bool :=
  let n := nat_of_ascii c in
  ((9 <=? n)%nat && (n <=? 13)%nat) || (n =? 32)%nat
  || (n =? 133)%nat || (n =? 160)%nat.

Definition digit_value (c : ascii) : option Z :=
  let n := nat_of_ascii c in
  if ((48 <=? n)%nat && (n <=? 57)%nat) then Some (Z.of_nat (n - 48)) else None.

Definition is_underscore (c : ascii) : bool := (nat_of_ascii c =? 95)%nat.

Fixpoint lstrip (s : string) : string :=
  match s with
  | String c r => if is_space c then lstrip r else s
  | EmptyString => EmptyString
  end.

Fixpoint all_space (s : string) : bool :=
  match s with
  | String c r => is_space c && all_space r
  | EmptyString => true
  end.

(** The run of digits with single underscores between them. [prev_us] says
    that the previous character was an underscore; the result is the value,
    the number of digits and the text left. [None]: two underscores in a
    row, or an underscore at the end of the run. *)
Fixpoint scan_digits (prev_us : bool) (acc : Z) (nd : nat) (s : string)
  : option (Z * nat * string) :=
  match s with
  | String c r =>
      match digit_value c with
      | Some d => scan_digits false (10 * acc + d) (S nd) r
      | None =>
          if is_underscore c then
            if prev_us then None else scan_digits true acc nd r
          else if prev_us then None else Some (acc, nd, s)
      end
  | EmptyString => if prev_us then None else Some (acc, nd, EmptyString)
  end.

(** CPython's default bound on the number of digits of a decimal literal
    ([sys.get_int_max_str_digits()]); 0 would switch the check off. *)
Definition int_max_str_digits : nat := 4300.

(** [int(s)] in base 10; [None] stands for [ValueError]. *)
Definition int (s : string) : option Z :=
  let s1 := lstrip s in
  let '(neg, s2) :=
    match s1 with
    | String "+" r => (false, r)
    | String "-" r => (true, r)
    | _ => (false, s1)
    end in
  match s2 with
  | String c _ =>
      if is_underscore c then None
      else
        match scan_digits false 0 0%nat s2 with
        | Some (v, nd, rest) =>
            if (nd =? 0)%nat then None
            else if (0 <? int_max_str_digits)%nat && (int_max_str_digits <? nd)%nat
            then None
            else if all_space rest then Some (if neg then - v else v)
            else None
        | None => None
        end
  | EmptyString => None
  end.

End PyStr.

(** ** The objects around the wrapper *)

(** Modelled from the spec: the originating request ([EmscriptenRequest],
    declared in [request.py], not under src/) carries a method and a target
    URL. *)
Record EmscriptenRequest : Type := {
  method : string;
  request_url : string;
}.

(** An [IOBase] body with the behaviour of [io.BytesIO]: the content, the
    read position, and whether [close] was called. [io_reads] counts the
    [read] calls the object received. *)
Record IOBase : Type := {
  io_buf : bytes;
  io_pos : nat;
  io_closed : bool;
  io_reads : nat;
}.

(** [BytesIO(b)] *)
Definition BytesIO (b : bytes) : IOBase :=
  {| io_buf := b; io_pos := 0; io_closed := false; io_reads := 0 |}.

(** [body: IOBase | bytes] *)
Inductive Body : Type :=
  | Buffered (b : bytes)
  | Stream (s : IOBase).

(** The dataclass [EmscriptenResponse]. *)
Record EmscriptenResponse : Type := {
  status_code : Z;
  resp_headers : gmap string string;
  body : Body;
  request : EmscriptenRequest;
}.

(** Modelled from the spec: the connection handle and the pool
    ([BaseHTTPConnection] and the pool class are not under src/). The pool
    records the connections handed back to it by [_put_conn], latest first. *)
Definition Connection := nat.

Record Pool : Type := {
  returned : list Connection;
}.

Definition _put_conn (c : Connection) (p : Pool) : Pool :=
  {| returned := c :: returned p |}.

(** Modelled from the spec: [Retry] and its history entries
    ([urllib3.util.retry], not under src/); only what the setter reads. *)
Record RequestHistory : Type := {
  redirect_location : option string;
}.

Record Retry : Type := {
  history : list RequestHistory;
}.

(** The wrapper object [self]. [headers], [status], [chunked], [_retries]
    and [length_remaining] are the attributes of the base class
    [BaseHTTPResponse]; the header container looks names up without regard
    to case, so the map is keyed by the lower-case names. *)
Record Wrapper : Type := {
  _pool : option Pool;
  _body : option bytes;
  _response : EmscriptenResponse;
  _url : option string;
  _connection : option Connection;
  _retries : option Retry;
  headers : gmap string string;
  status : Z;
  chunked : bool;
  length_remaining : option Z;
}.

(** Field updates ([self.x = v]). *)
Definition set_length_remaining (v : option Z) (self : Wrapper) : Wrapper :=
  {| _pool := _pool self; _body := _body self; _response := _response self;
     _url := _url self; _connection := _connection self;
     _retries := _retries self; headers := headers self;
     status := status self; chunked := chunked self;
     length_remaining := v |}.

Definition set__body (v : option bytes) (self : Wrapper) : Wrapper :=
  {| _pool := _pool self; _body := v; _response := _response self;
     _url := _url self; _connection := _connection self;
     _retries := _retries self; headers := headers self;
     status := status self; chunked := chunked self;
     length_remaining := length_remaining self |}.

Definition set__url (v : option string) (self : Wrapper) : Wrapper :=
  {| _pool := _pool self; _body := _body self; _response := _response self;
     _url := v; _connection := _connection self;
     _retries := _retries self; headers := headers self;
     status := status self; chunked := chunked self;
     length_remaining := length_remaining self |}.

Definition set__connection (v : option Connection) (self : Wrapper) : Wrapper :=
  {| _pool := _pool self; _body := _body self; _response := _response self;
     _url := _url self; _connection := v;
     _retries := _retries self; headers := headers self;
     status := status self; chunked := chunked self;
     length_remaining := length_remaining self |}.

Definition set__pool (v : option Pool) (self : Wrapper) : Wrapper :=
  {| _pool := v; _body := _body self; _response := _response self;
     _url := _url self; _connection := _connection self;
     _retries := _retries self; headers := headers self;
     status := status self; chunked := chunked self;
     length_remaining := length_remaining self |}.

Definition set__retries (v : option Retry) (self : Wrapper) : Wrapper :=
  {| _pool := _pool self; _body := _body self; _response := _response self;
     _url := _url self; _connection := _connection self;
     _retries := v; headers := headers self;
     status := status self; chunked := chunked self;
     length_remaining := length_remaining self |}.

(** [self._response.body = v] *)
Definition set_response_body (v : Body) (self : Wrapper) : Wrapper :=
  {| _pool := _pool self; _body := _body self;
     _response := {| status_code := status_code (_response self);
                     resp_headers := resp_headers (_response self);
                     body := v;
                     request := request (_response self) |};
     _url := _url self; _connection := _connection self;
     _retries := _retries self; headers := headers self;
     status := status self; chunked := chunked self;
     length_remaining := length_remaining self |}.

(** ** The Length Resolver: [_init_length] *)

(** The warnings a call of [_init_length] has logged when it ends. The
    one logging statement of the function is [log.warning(...)], and
    response.py binds no name [log]: the lookup raises [NameError] before
    anything is logged, so the list is empty on every path. *)
Definition Log := list string.

(** The body of the [try]: the set comprehension over the split header,
    the test on the size of the set, and [lengths.pop()]. [int] raises
    [ValueError] at the first value it cannot read, before any comparison
    of the values. For values that differ the statement is
    [raise InvalidHeader(...)], and response.py binds no name
    [InvalidHeader]: the lookup raises [NameError], which is no
    [ValueError]. *)
Definition parse_lengths (content_length : string) : result Z :=
  match mapM PyStr.int (PyStr.split "," content_length) with
  | None => Raise (ValueError "invalid literal for int() with base 10")
  | Some vals =>
      let lengths : gset Z := list_to_set vals in
      if (1 <? size lengths)%nat then
        Raise (NameError "InvalidHeader")
      else
        match elements lengths with
        | length :: _ => Return length
        | [] => Raise (KeyError "pop from an empty set")
        end
  end.

(** [status in (204, 304) or 100 <= status < 200 or request_method == "HEAD"] *)
Definition no_body (status : Z) (request_method : option string) : bool :=
  (status =? 204) || (status =? 304)
  || ((100 <=? status) && (status <? 200))
  || bool_decide (request_method = Some "HEAD").

(** The end of [_init_length], from the conversion of the status on.
    [status] is an [int] here, so [int(self.status)] is the status itself
    and its [except ValueError] is never taken. *)
Definition finish_length (self : Wrapper) (request_method : option string)
    (length : option Z) : option Z :=
  if no_body (status self) request_method then Some 0 else length.

(** [_init_length]. The branch for a chunked encoding starts with
    [log.warning(...)]: the lookup of [log] raises [NameError], and the
    [return None] that follows is not reached. *)
Definition _init_length (self : Wrapper) (request_method : option string)
  : result (option Z) * Log :=
  match headers self !! "content-length" with
  | Some content_length =>
      if chunked self then (Raise (NameError "log"), [])
      else
        match parse_lengths content_length with
        | Raise e =>
            if is_ValueError e
            then (Return (finish_length self request_method None), [])
            else (Raise e, [])
        | Return length =>
            (Return (finish_length self request_method
                       (if length <? 0 then None else Some length)), [])
        end
  | None => (Return (finish_length self request_method None), [])
  end.

(** A call of [self._init_length] with the given arguments: the method has one required
    parameter besides [self]. *)
Definition call__init_length (self : Wrapper) (args : list (option string))
  : result (option Z) * Log :=
  match args with
  | [request_method] => _init_length self request_method
  | _ => (Raise (TypeError
           "_init_length() missing 1 required positional argument: 'request_method'"),
          [])
  end.

Section Constructor.

(** What the base class makes of the headers for [self.chunked]
    ([BaseHTTPResponse.__init__] is not under src/). *)
Variable base_chunked : gmap string string → bool.

(** [__init__]: the attributes, the base class' attributes, then
    [self.length_remaining = self._init_length()], a call without the
    argument. *)
Definition __init__ (internal_response : EmscriptenResponse)
    (url : option string) (connection : option Connection)
  : result Wrapper * Log :=
  let self :=
    {| _pool := None; _body := None; _response := internal_response;
       _url := url; _connection := connection; _retries := None;
       headers := resp_headers internal_response;
       status := status_code internal_response;
       chunked := base_chunked (resp_headers internal_response);
       length_remaining := None |} in
  match call__init_length self [] with
  | (Return length, warnings) =>
      (Return (set_length_remaining length self), warnings)
  | (Raise e, warnings) => (Raise e, warnings)
  end.

End Constructor.

(** ** Methods: state and exceptions *)

(** A method body: it runs on the object and hands back a value or an
    exception, together with the object as the run left it. *)
Definition M (A : Type) : Type := Wrapper → result A * Wrapper.

Definition ret {A} (a : A) : M A := λ self, (Return a, self).

Definition raise {A} (e : exn) : M A := λ self, (Raise e, self).

Definition bind {A B} (m : M A) (k : A → M B) : M B :=
  λ self,
    match m self with
    | (Return a, self') => k a self'
    | (Raise e, self') => (Raise e, self')
    end.

Definition set_attr (f : Wrapper → Wrapper) : M unit :=
  λ self, (Return tt, f self).

Notation "x <~ c ;; k" := (bind c (λ x, k))
  (at level 100, c at next level, right associativity).
Notation "c ;;; k" := (bind c (λ _, k))
  (at level 100, k at level 200, right associativity).

(** ** The Body Source *)

(** The largest [Py_ssize_t], [sys.maxsize] of a 64-bit CPython. *)
Definition PY_SSIZE_T_MAX : Z := 2 ^ 63 - 1.

(** The size argument of [read] fits a [Py_ssize_t]; [None] needs no
    conversion. *)
Definition amt_fits (amt : option Z) : bool :=
  match amt with
  | None => true
  | Some n => (- PY_SSIZE_T_MAX - 1 <=? n) && (n <=? PY_SSIZE_T_MAX)
  end.

(** [s.read(amt)] on the stream object. The size is converted first: an
    [amt] that does not fit a [Py_ssize_t] raises [OverflowError], also on
    a closed object, and reads nothing. Then a closed object raises
    [ValueError]; else [None] or a negative [amt] reads to the end. *)
Definition io_read (amt : option Z) (s : IOBase) : result bytes * IOBase :=
  if negb (amt_fits amt) then
    (Raise (OverflowError "cannot fit 'int' into an index-sized integer"),
     {| io_buf := io_buf s; io_pos := io_pos s; io_closed := io_closed s;
        io_reads := S (io_reads s) |})
  else if io_closed s then
    (Raise (ValueError "I/O operation on closed file."),
     {| io_buf := io_buf s; io_pos := io_pos s; io_closed := true;
        io_reads := S (io_reads s) |})
  else
    let rest := drop (io_pos s) (io_buf s) in
    let data :=
      match amt with
      | None => rest
      | Some n => if n <? 0 then rest else take (Z.to_nat n) rest
      end in
    (Return data,
     {| io_buf := io_buf s; io_pos := (io_pos s + length data)%nat;
        io_closed := false; io_reads := S (io_reads s) |}).

(** [s.close()] *)
Definition io_close (s : IOBase) : IOBase :=
  {| io_buf := io_buf s; io_pos := io_pos s; io_closed := true;
     io_reads := io_reads s |}.

(** The first statement of [read]: a body that is not an [IOBase] is
    wrapped in a [BytesIO], and its length is stored in
    [length_remaining]. *)
Definition wrap_body : M unit :=
  λ self,
    match body (_response self) with
    | Buffered b =>
        (Return tt,
         set_response_body (Stream (BytesIO b))
           (set_length_remaining (Some (len b)) self))
    | Stream _ => (Return tt, self)
    end.

(** [self._response.body.read(amt)] *)
Definition body_read (amt : option Z) : M bytes :=
  λ self,
    match body (_response self) with
    | Stream s =>
        let '(r, s') := io_read amt s in
        (r, set_response_body (Stream s') self)
    | Buffered _ =>
        (Raise (AttributeError "'bytes' object has no attribute 'read'"), self)
    end.

(** [if self.length_remaining>0:
       self.length_remaining= max(self.length_remaining-len(data),0)];
    the comparison of [None] with an [int] raises [TypeError]. *)
Definition count_down (data : bytes) : M unit :=
  λ self,
    match length_remaining self with
    | None =>
        (Raise (TypeError
           "'>' not supported between instances of 'NoneType' and 'int'"),
         self)
    | Some n =>
        if 0 <? n then
          (Return tt,
           set_length_remaining (Some (Z.max (n - len data) 0)) self)
        else (Return tt, self)
    end.

(** ** The Response Adapter *)

(** [read(amt, decode_content, cache_content)]. The branch for a given
    [amt] ends in [return typing.cast(bytes, read_data)], and no name
    [read_data] is bound in the function or in the module: the lookup
    raises [NameError] after the stream and the counter were updated. *)
Definition read (amt : option Z) (decode_content : option bool)
    (cache_content : bool) : M bytes :=
  wrap_body ;;;
  match amt with
  | Some _ =>
      data <~ body_read amt ;;
      count_down data ;;;
      raise (NameError "read_data")
  | None =>
      data <~ body_read None ;;
      (if cache_content then set_attr (set__body (Some data)) else ret tt) ;;;
      count_down data ;;;
      ret data
  end.

(** One resumption of the generator [read_chunked]: a pass through the
    loop body up to the [yield], the [break] or an exception. *)
Inductive GenStep : Type :=
  | Yield (chunk : bytes)
  | StopIteration
  | GenRaise (e : exn).

Definition read_chunked_next (amt : option Z) (decode_content : option bool)
  : Wrapper → GenStep * Wrapper :=
  λ self,
    match read amt decode_content false self with
    | (Return [], self') => (StopIteration, self')
    | (Return chunk, self') => (Yield chunk, self')
    | (Raise e, self') => (GenRaise e, self')
    end.

(** How a consumer's iteration over the generator ended. *)
Inductive GenEnd : Type :=
  | Exhausted
  | Failed (e : exn)
  | Suspended.

(** [read_chunked(amt, decode_content)] iterated by its consumer for at
    most [fuel] resumptions: the chunks yielded in order, and how the
    iteration ended ([Suspended]: the generator was not finished yet). *)
Fixpoint read_chunked (fuel : nat) (amt : option Z)
    (decode_content : option bool) (self : Wrapper)
  : list bytes * GenEnd * Wrapper :=
  match fuel with
  | O => ([], Suspended, self)
  | S fuel' =>
      match read_chunked_next amt decode_content self with
      | (Yield chunk, self') =>
          let '(chunks, e, self'') :=
            read_chunked fuel' amt decode_content self' in
          (chunk :: chunks, e, self'')
      | (StopIteration, self') => ([], Exhausted, self')
      | (GenRaise e, self') => ([], Failed e, self')
      end
  end.

(** [release_conn]: a pool object and a connection object are truthy,
    [None] is not. *)
Definition release_conn : M unit :=
  λ self,
    match _pool self, _connection self with
    | Some pool, Some conn =>
        (Return tt,
         set__connection None (set__pool (Some (_put_conn conn pool)) self))
    | _, _ => (Return tt, self)
    end.

Definition close : M unit :=
  λ self,
    match body (_response self) with
    | Stream s => (Return tt, set_response_body (Stream (io_close s)) self)
    | Buffered _ => (Return tt, self)
    end.

Definition drain_conn : M unit := close.

(** The property [data]: [if self._body:] is the truth value of the cache,
    which is false for [None] and for the empty [bytes]. *)
Definition data : M bytes :=
  λ self,
    match _body self with
    | Some (c :: cs) => (Return (c :: cs), self)
    | _ => read None None true self
    end.

Section Json.

(** [bytes.decode("utf-8")] and [json.loads] are the standard library's:
    [None] stands for [UnicodeDecodeError] and for [JSONDecodeError]. *)
Variables (text value : Type).
Variable decode_utf8 : bytes → option text.
Variable loads : text → option value.

Definition json : M value :=
  raw <~ data ;;
  match decode_utf8 raw with
  | None => raise UnicodeDecodeError
  | Some data =>
      match loads data with
      | None => raise JSONDecodeError
      | Some v => ret v
      end
  end.

End Json.

(** The property [url] and its setter. *)
Definition url (self : Wrapper) : option string := _url self.

Definition url_setter (url : option string) : M unit :=
  set_attr (set__url url).

(** The property [retries] and its setter:
    [retries.history] is a tuple, true when it is not empty, and
    [history[-1]] its last entry. *)
Definition retries (self : Wrapper) : option Retry := _retries self.

Definition retries_setter (retries : option Retry) : M unit :=
  match retries with
  | Some r =>
      match last (history r) with
      | Some entry =>
          url_setter (redirect_location entry) ;;;
          set_attr (set__retries retries)
      | None => set_attr (set__retries retries)
      end
  | None => set_attr (set__retries retries)
  end.

(** ** Sample objects *)

Definition GET : EmscriptenRequest := {| method := "GET"; request_url := "/" |}.

(** A wrapper with the given headers, status, [chunked] flag, body and
    [length_remaining], and nothing else set. *)
Definition wrapper_of (hs : list (string * string)) (st : Z) (ch : bool)
    (b : Body) (lr : option Z) : Wrapper :=
  {| _pool := None; _body := None;
     _response := {| status_code := st; resp_headers := list_to_map hs;
                     body := b; request := GET |};
     _url := None; _connection := None; _retries := None;
     headers := list_to_map hs; status := st; chunked := ch;
     length_remaining := lr |}.

Definition bytes_of (s : string) : bytes := String.list_byte_of_string s.

(** A wrapper with an empty buffered body and a [Content-Length] header. *)
Definition with_length (cl : string) (st : Z) (ch : bool) : Wrapper :=
  wrapper_of [("content-length", cl)] st ch (Buffered []) None.

(** A wrapper without headers over a stream, and over a buffer. *)
Definition streamed (content : string) (lr : option Z) : Wrapper :=
  wrapper_of [] 200 false (Stream (BytesIO (bytes_of content))) lr.

Definition buffered (content : string) (st : Z) (lr : option Z) : Wrapper :=
  wrapper_of [] st false (Buffered (bytes_of content)) lr.

(** A wrapper that holds connection 7 of a pool that has received nothing. *)
Definition pooled : Wrapper :=
  set__connection (Some 7%nat)
    (set__pool (Some {| returned := [] |}) (buffered "" 200 None)).

(** A retry object that went through two redirects. *)
Definition redirected : Retry :=
  {| history := [ {| redirect_location := Some "/a" |};
                  {| redirect_location := Some "/b" |} ] |}.

(** The state after a sequence of [read] calls, whatever each call
    returned or raised. *)
Definition run_reads (calls : list (option Z * option bool * bool))
    (self : Wrapper) : Wrapper :=
  foldl (λ w '(amt, decode_content, cache_content),
           snd (read amt decode_content cache_content w)) self calls.

(** The number of [read] calls the body object has received; a [bytes]
    body has received none. *)
Definition body_reads (self : Wrapper) : nat :=
  match body (_response self) with
  | Stream s => io_reads s
  | Buffered _ => 0%nat
  end.

(** [read] finds an open stream and a counter: the body is still a buffer,
    or it is an open stream and [length_remaining] is a number. *)
Definition countable_body (self : Wrapper) : Prop :=
  match body (_response self) with
  | Buffered _ => True
  | Stream s => io_closed s = false ∧ is_Some (length_remaining self)
  end.

(** [data] finds something to return: a non-empty cache, a buffered body,
    or an open stream whose remaining length is a number. *)
Definition readable (self : Wrapper) : Prop :=
  match _body self with
  | Some (_ :: _) => True
  | _ => countable_body self
  end.

(** The bytes a [read(amt)] takes from an open stream, and the stream
    after it. *)
Definition io_chunk (amt : option Z) (s : IOBase) : bytes :=
  let rest := drop (io_pos s) (io_buf s) in
  match amt with
  | None => rest
  | Some k => if k <? 0 then rest else take (Z.to_nat k) rest
  end.

Definition io_advance (amt : option Z) (s : IOBase) : IOBase :=
  {| io_buf := io_buf s;
     io_pos := (io_pos s + length (io_chunk amt s))%nat;
     io_closed := false; io_reads := S (io_reads s) |}.

(** A stream after a [read] whose size did not fit. *)
Definition io_touch (s : IOBase) : IOBase :=
  {| io_buf := io_buf s; io_pos := io_pos s; io_closed := io_closed s;
     io_reads := S (io_reads s) |}.

(** A closed stream after a refused [read]. *)
Definition io_refuse (s : IOBase) : IOBase :=
  {| io_buf := io_buf s; io_pos := io_pos s; io_closed := true;
     io_reads := S (io_reads s) |}.

(** The wrapper after [count_down data] found the counter at [n]. *)
Definition counted (n : Z) (data : bytes) (self : Wrapper) : Wrapper :=
  if 0 <? n then set_length_remaining (Some (Z.max (n - len data) 0)) self
  else self.

(** Stand-ins for the two library functions of [json] in the examples: a
    decoder for the ASCII range of UTF-8, and a parser for the three JSON
    literals. *)
Definition decode_ascii (raw : bytes) : option string :=
  if forallb (λ c, (Byte.to_nat c <? 128)%nat) raw
  then Some (String.string_of_list_byte raw)
  else None.

Inductive Literal : Type := JTrue | JFalse | JNull.

Definition loads_literal (t : string) : option Literal :=
  if String.eqb t "true" then Some JTrue
  else if String.eqb t "false" then Some JFalse
  else if String.eqb t "null" then Some JNull
  else None.

(** The connections the wrapper's pool has been handed back. *)
Definition pool_returned (self : Wrapper) : list Connection :=
  match _pool self with
  | Some pool => returned pool
  | None => []
  end.

(** ** Decimal numerals *)

(** A text made of decimal digits only, and the number its digits denote
    when they follow the digits of [acc]. *)
Fixpoint digits_only (s : string) : bool :=
  match s with
  | EmptyString => true
  | String c r =>
      match PyStr.digit_value c with
      | Some _ => digits_only r
      | None => false
      end
  end.

Fixpoint numeral_value (acc : Z) (s : string) : Z :=
  match s with
  | EmptyString => acc
  | String c r =>
      match PyStr.digit_value c with
      | Some d => numeral_value (10 * acc + d) r
      | None => acc
      end
  end.

(** ** Sequences of operations *)

(** The operations a user of the wrapper can call, in any order. [json]
    changes the wrapper as [data] does. *)
Inductive Op : Type :=
  | OpRead (amt : option Z) (decode_content : option bool)
      (cache_content : bool)
  | OpReadChunked (fuel : nat) (amt : option Z) (decode_content : option bool)
  | OpData
  | OpReleaseConn
  | OpDrainConn
  | OpClose
  | OpSetUrl (u : option string)
  | OpSetRetries (r : option Retry).

(** The wrapper after one operation, whatever it returned or raised. *)
Definition run_op (op : Op) (self : Wrapper) : Wrapper :=
  match op with
  | OpRead amt decode_content cache_content =>
      snd (read amt decode_content cache_content self)
  | OpReadChunked fuel amt decode_content =>
      snd (read_chunked fuel amt decode_content self)
  | OpData => snd (data self)
  | OpReleaseConn => snd (release_conn self)
  | OpDrainConn => snd (drain_conn self)
  | OpClose => snd (close self)
  | OpSetUrl u => snd (url_setter u self)
  | OpSetRetries r => snd (retries_setter r self)
  end.

Definition run_ops (ops : list Op) (self : Wrapper) : Wrapper :=
  foldl (λ w op, run_op op w) self ops.

(** The bytes the body was created with. *)
Definition body_content (self : Wrapper) : bytes :=
  match body (_response self) with
  | Buffered buf => buf
  | Stream s => io_buf s
  end.

(** How a body can change: a buffer becomes a stream over its bytes; a
    stream keeps its bytes, only moves forward, and stays closed once it
    is closed. *)
Definition body_evolves (b1 b2 : Body) : Prop :=
  match b1, b2 with
  | Buffered buf, Buffered buf' => buf' = buf
  | Buffered buf, Stream s' => io_buf s' = buf
  | Stream s, Stream s' =>
      io_buf s' = io_buf s
      ∧ (io_pos s ≤ io_pos s')%nat
      ∧ (io_reads s ≤ io_reads s')%nat
      ∧ (io_closed s = true → io_closed s' = true)
  | Stream _, Buffered _ => False
  end.

(** How the pool and the connection handle can change: not at all, or by
    the one hand-over of the connection. *)
Definition pool_evolves (w1 w2 : Wrapper) : Prop :=
  (_pool w2 = _pool w1 ∧ _connection w2 = _connection w1)
  ∨ (∃ pool conn,
       _pool w1 = Some pool ∧ _connection w1 = Some conn
       ∧ _pool w2 = Some (_put_conn conn pool) ∧ _connection w2 = None).

(** How the counter can change: it stays non-negative, and over a stream
    body it stays a number and does not grow. *)
Definition counter_evolves (w1 w2 : Wrapper) : Prop :=
  ((∀ n, length_remaining w1 = Some n → 0 ≤ n) →
   (∀ m, length_remaining w2 = Some m → 0 ≤ m))
  ∧ (∀ s n, body (_response w1) = Stream s →
            length_remaining w1 = Some n →
            ∃ m, length_remaining w2 = Some m ∧ m ≤ n).

(** What every operation keeps. *)
Definition evolves (w1 w2 : Wrapper) : Prop :=
  headers w2 = headers w1 ∧ status w2 = status w1 ∧ chunked w2 = chunked w1
  ∧ status_code (_response w2) = status_code (_response w1)
  ∧ resp_headers (_response w2) = resp_headers (_response w1)
  ∧ request (_response w2) = request (_response w1)
  ∧ body_evolves (body (_response w1)) (body (_response w2))
  ∧ pool_evolves w1 w2
  ∧ counter_evolves w1 w2.

(** The operations that are setters of the URL or of the retries. *)
Definition is_setter (op : Op) : bool :=
  match op with
  | OpSetUrl _ | OpSetRetries _ => true
  | _ => false
  end.

(** The body is an open stream at its end, and the counter is a number. *)
Definition at_eof (self : Wrapper) : Prop :=
  ∃ s n, body (_response self) = Stream s ∧ io_closed s = false
         ∧ io_chunk None s = [] ∧ length_remaining self = Some n.

(** The wrapper after [k] accesses to [data]. *)
Definition after_data (k : nat) (self : Wrapper) : Wrapper :=
  Nat.iter k (λ w, snd (data w)) self.

(** * Properties *)

(** ** The Length Resolver *)

Section LengthResolver.

Implicit Types (self : Wrapper) (cl : string) (vals : list Z).

Lemma split_nonempty sep s : PyStr.split sep s ≠ [].
Proof.
  destruct s as [|c r]; simpl; [done|].
  destruct (Ascii.eqb c sep); [done|].
  by destruct (PyStr.split sep r).
Qed.

Lemma no_body_true st rm :
  no_body st rm = true ↔
  st = 204 ∨ st = 304 ∨ 100 ≤ st < 200 ∨ rm = Some "HEAD".
Proof.
  unfold no_body.
  rewrite !orb_true_iff, andb_true_iff, bool_decide_eq_true.
  rewrite !Z.eqb_eq, Z.leb_le, Z.ltb_lt. tauto.
Qed.

Lemma list_to_set_const vals n :
  vals ≠ [] → (∀ v, v ∈ vals → v = n) →
  list_to_set (C:=gset Z) vals = {[n]}.
Proof.
  intros Hne Hall. apply set_eq. intros x.
  rewrite elem_of_list_to_set, elem_of_singleton. split; [by auto|].
  intros ->. destruct vals as [|v vs]; [done|].
  rewrite <- (Hall v); [|by left]. by left.
Qed.

Lemma size_two_elems (X : gset Z) a c : a ∈ X → c ∈ X → a ≠ c → (1 < size X)%nat.
Proof.
  intros Ha Hc Hne.
  assert (Hsub : ({[a]} ∪ {[c]} : gset Z) ⊆ X).
  { apply union_subseteq. split; by apply singleton_subseteq_l. }
  apply subseteq_size in Hsub.
  rewrite size_union in Hsub; [|by apply disjoint_singleton_l, not_elem_of_singleton].
  rewrite !size_singleton in Hsub. lia.
Qed.

(** All values read as the same integer: [lengths.pop()] is that integer. *)
Lemma parse_lengths_equal cl n :
  Forall (λ v, PyStr.int v = Some n) (PyStr.split "," cl) →
  parse_lengths cl = Return n.
Proof.
  intros Hall. unfold parse_lengths.
  pose proof (split_nonempty "," cl) as Hne.
  set (pieces := PyStr.split "," cl) in *.
  assert (Hm : mapM PyStr.int pieces = Some (replicate (length pieces) n)).
  { apply mapM_Some. clearbody pieces. clear Hne.
    induction Hall; simpl; constructor; auto. }
  rewrite Hm.
  rewrite (list_to_set_const _ n).
  - rewrite size_singleton. simpl. by rewrite elements_singleton.
  - destruct pieces; [done|]. simpl. done.
  - intros v Hv. by apply elem_of_replicate in Hv as [-> _].
Qed.

(** Some value is not an integer literal: [int] raises [ValueError]. *)
Lemma parse_lengths_invalid cl :
  Exists (λ v, PyStr.int v = None) (PyStr.split "," cl) →
  ∃ msg, parse_lengths cl = Raise (ValueError msg).
Proof.
  intros Hex. unfold parse_lengths.
  apply mapM_None in Hex. rewrite Hex. eauto.
Qed.

(** All values are integers and two of them differ: the [raise] is
    reached and fails on the name [InvalidHeader]. *)
Lemma parse_lengths_unmatching cl v1 v2 n1 n2 :
  Forall (λ v, is_Some (PyStr.int v)) (PyStr.split "," cl) →
  v1 ∈ PyStr.split "," cl → v2 ∈ PyStr.split "," cl →
  PyStr.int v1 = Some n1 → PyStr.int v2 = Some n2 → n1 ≠ n2 →
  parse_lengths cl = Raise (NameError "InvalidHeader").
Proof.
  intros Hall Hv1 Hv2 H1 H2 Hne. unfold parse_lengths.
  destruct (mapM PyStr.int (PyStr.split "," cl)) as [vals|] eqn:Hm.
  - apply mapM_Some in Hm.
    assert (Hin : ∀ v n, v ∈ PyStr.split "," cl → PyStr.int v = Some n →
                         n ∈ vals).
    { intros v n Hv Hn.
      apply list_elem_of_lookup in Hv as [i Hi].
      destruct (Forall2_lookup_l _ _ _ _ _ Hm Hi) as (y & Hy & Hvy).
      rewrite Hn in Hvy. injection Hvy as <-.
      apply list_elem_of_lookup. eauto. }
    assert (Hsz : (1 < size (list_to_set (C:=gset Z) vals))%nat).
    { apply (size_two_elems _ n1 n2); [| |done];
        apply elem_of_list_to_set; eauto. }
    apply Nat.ltb_lt in Hsz. by rewrite Hsz.
  - apply mapM_None in Hm. exfalso.
    apply Exists_exists in Hm as (v & Hv & Hnone).
    rewrite Forall_forall in Hall. specialize (Hall v Hv).
    rewrite Hnone in Hall. by destruct Hall.
Qed.


(** C2, at the failing inputs: with a [Content-Length] header and a
    chunked transfer encoding, whatever the status and the method, the
    resolver neither logs the conflict warning nor returns [None]: the
    lookup of [log] raises [NameError]. *)
Theorem content_length_with_chunked self rm cl :
  headers self !! "content-length" = Some cl →
  chunked self = true →
  _init_length self rm = (Raise (NameError "log"), []).
Proof.
  intros Hcl Hch. unfold _init_length. by rewrite Hcl, Hch.
Qed.

(** C3 (as amended). For a status 204 or 304, a status from 100 to 199,
    or the request method HEAD given to [_init_length], the resolver
    returns [Some 0] whenever the header processing lets it reach the
    override: the [Content-Length] header is absent or the encoding is
    not chunked, and the values of the header that all read as integers
    do not differ. *)
Theorem no_body_override self rm :
  status self = 204 ∨ status self = 304 ∨ 100 ≤ status self < 200
    ∨ rm = Some "HEAD" →
  headers self !! "content-length" = None ∨ chunked self = false →
  (∀ cl v1 v2 n1 n2,
     headers self !! "content-length" = Some cl →
     Forall (λ v, is_Some (PyStr.int v)) (PyStr.split "," cl) →
     v1 ∈ PyStr.split "," cl → v2 ∈ PyStr.split "," cl →
     PyStr.int v1 = Some n1 → PyStr.int v2 = Some n2 → n1 = n2) →
  _init_length self rm = (Return (Some 0), []).
Proof.
  intros Hst Hch Hsame. apply no_body_true in Hst.
  unfold _init_length, finish_length. rewrite Hst.
  destruct (headers self !! "content-length") as [cl|] eqn:Hcl; [|done].
  destruct Hch as [?| ->]; [done|].
  destruct (decide (Forall (λ v, is_Some (PyStr.int v)) (PyStr.split "," cl)))
    as [Hall|Hnot].
  - pose proof (split_nonempty "," cl) as Hne.
    destruct (PyStr.split "," cl) as [|v0 vs] eqn:Hsp; [done|].
    pose proof (Forall_inv Hall) as [n0 Hn0].
    rewrite <- Hsp in *.
    assert (H0 : v0 ∈ PyStr.split "," cl) by (rewrite Hsp; by left).
    rewrite (parse_lengths_equal cl n0); [done|].
    apply Forall_forall. intros v Hv.
    rewrite Forall_forall in Hall. destruct (Hall v Hv) as [n Hn].
    rewrite Hn. f_equal. symmetry.
    by apply (Hsame cl v0 v n0 n eq_refl (proj2 (Forall_forall _ _) Hall)).
  - apply not_Forall_Exists in Hnot; [|intros v; apply _].
    assert (Hex : Exists (λ v, PyStr.int v = None) (PyStr.split "," cl)).
    { eapply Exists_impl; [exact Hnot|]. simpl. intros v Hv.
      destruct (PyStr.int v); [|done]. exfalso. apply Hv. eauto. }
    by destruct (parse_lengths_invalid _ Hex) as [msg ->].
Qed.

(** A length the resolver returns is never negative. *)
Lemma _init_length_nonneg self rm n warnings :
  _init_length self rm = (Return (Some n), warnings) → 0 ≤ n.
Proof.
  unfold _init_length, finish_length.
  destruct (headers self !! "content-length") as [cl|].
  - destruct (chunked self); [done|].
    destruct (parse_lengths cl) as [length|e].
    + destruct (no_body _ _); [by intros [= <- _]|].
      destruct (Z.ltb_spec length 0); [done|]. intros [= <- _]. lia.
    + destruct (is_ValueError e); [|done].
      by destruct (no_body _ _); intros [= <- _].
  - by destruct (no_body _ _); intros [= <- _].
Qed.

(** X23. The constructor calls [self._init_length()] without the request
    method: the call raises [TypeError] and no wrapper is built. *)
Lemma __init___raises base_chunked internal_response url connection :
  ∃ msg, __init__ base_chunked internal_response url connection
         = (Raise (TypeError msg), []).
Proof. unfold __init__. simpl. eauto. Qed.

End LengthResolver.

(** ** Reads and the remaining length *)

Section Reads.

Implicit Types (self : Wrapper) (s : IOBase) (n : Z) (amt : option Z).

Lemma io_read_open amt s :
  amt_fits amt = true → io_closed s = false →
  io_read amt s = (Return (io_chunk amt s), io_advance amt s).
Proof. intros Hfit Hopen. unfold io_read. by rewrite Hfit, Hopen. Qed.

Lemma io_read_closed amt s :
  amt_fits amt = true → io_closed s = true →
  io_read amt s
  = (Raise (ValueError "I/O operation on closed file."), io_refuse s).
Proof. intros Hfit Hcl. unfold io_read. by rewrite Hfit, Hcl. Qed.

Lemma io_read_overflow amt s :
  amt_fits amt = false →
  io_read amt s
  = (Raise (OverflowError "cannot fit 'int' into an index-sized integer"),
     io_touch s).
Proof. intros Hfit. unfold io_read. by rewrite Hfit. Qed.

Lemma wrap_body_stream self s :
  body (_response self) = Stream s → wrap_body self = (Return tt, self).
Proof. intros Hb. unfold wrap_body. by rewrite Hb. Qed.

Lemma wrap_body_buffered self buf :
  body (_response self) = Buffered buf →
  wrap_body self
  = (Return tt,
     set_response_body (Stream (BytesIO buf))
       (set_length_remaining (Some (len buf)) self)).
Proof. intros Hb. unfold wrap_body. by rewrite Hb. Qed.

Lemma body_read_open self s amt :
  body (_response self) = Stream s → amt_fits amt = true →
  io_closed s = false →
  body_read amt self
  = (Return (io_chunk amt s),
     set_response_body (Stream (io_advance amt s)) self).
Proof.
  intros Hb Hfit Hopen. unfold body_read. by rewrite Hb, io_read_open.
Qed.

Lemma body_read_overflow self s amt :
  body (_response self) = Stream s → amt_fits amt = false →
  body_read amt self
  = (Raise (OverflowError "cannot fit 'int' into an index-sized integer"),
     set_response_body (Stream (io_touch s)) self).
Proof.
  intros Hb Hfit. unfold body_read. by rewrite Hb, io_read_overflow.
Qed.

Lemma body_read_closed self s amt :
  body (_response self) = Stream s → amt_fits amt = true →
  io_closed s = true →
  body_read amt self
  = (Raise (ValueError "I/O operation on closed file."),
     set_response_body (Stream (io_refuse s)) self).
Proof.
  intros Hb Hfit Hcl. unfold body_read. by rewrite Hb, io_read_closed.
Qed.

Lemma count_down_some self n chunk :
  length_remaining self = Some n →
  count_down chunk self = (Return tt, counted n chunk self).
Proof.
  intros Hn. unfold count_down, counted. rewrite Hn. by destruct (0 <? n).
Qed.



(** [read] on a closed stream: [ValueError], and nothing but the call
    count of the stream changes. *)
Lemma read_closed self s amt dc cc :
  body (_response self) = Stream s → amt_fits amt = true →
  io_closed s = true →
  read amt dc cc self
  = (Raise (ValueError "I/O operation on closed file."),
     set_response_body (Stream (io_refuse s)) self).
Proof.
  intros Hb Hfit Hcl. unfold read, bind.
  rewrite (wrap_body_stream _ _ Hb).
  destruct amt; by rewrite (body_read_closed _ _ _ Hb Hfit Hcl).
Qed.

(** [read] with a size that does not fit: [OverflowError], on an open and
    on a closed stream, and nothing but the call count of the stream
    changes. *)
Lemma read_overflow self s amt dc cc :
  body (_response self) = Stream s → amt_fits amt = false →
  read amt dc cc self
  = (Raise (OverflowError "cannot fit 'int' into an index-sized integer"),
     set_response_body (Stream (io_touch s)) self).
Proof.
  intros Hb Hfit. unfold read, bind.
  rewrite (wrap_body_stream _ _ Hb).
  destruct amt; [|done]. by rewrite (body_read_overflow _ _ _ Hb Hfit).
Qed.

(** [read(None)] on an open stream with a counter. *)
Lemma read_all_open self s n dc cc :
  body (_response self) = Stream s → io_closed s = false →
  length_remaining self = Some n →
  read None dc cc self
  = (Return (io_chunk None s),
     counted n (io_chunk None s)
       ((if cc then set__body (Some (io_chunk None s)) else id)
          (set_response_body (Stream (io_advance None s)) self))).
Proof.
  intros Hb Hopen Hn. unfold read, bind.
  rewrite (wrap_body_stream _ _ Hb), (body_read_open _ _ None Hb eq_refl Hopen).
  destruct cc; unfold set_attr, ret; simpl;
    by rewrite (count_down_some _ n).
Qed.

(** [read(k)] on an open stream with a counter: the bytes are taken and
    counted, then the [return] raises [NameError]. *)
Lemma read_some_open self s n k dc cc :
  body (_response self) = Stream s → amt_fits (Some k) = true →
  io_closed s = false →
  length_remaining self = Some n →
  read (Some k) dc cc self
  = (Raise (NameError "read_data"),
     counted n (io_chunk (Some k) s)
       (set_response_body (Stream (io_advance (Some k) s)) self)).
Proof.
  intros Hb Hfit Hopen Hn. unfold read, bind.
  rewrite (wrap_body_stream _ _ Hb), (body_read_open _ _ _ Hb Hfit Hopen).
  unfold raise. by rewrite (count_down_some _ n).
Qed.

(** [read] on a buffered body is [read] on the wrapper with the body
    wrapped and the counter set to the length of the buffer. *)
Lemma read_buffered self buf amt dc cc :
  body (_response self) = Buffered buf →
  read amt dc cc self
  = read amt dc cc
      (set_response_body (Stream (BytesIO buf))
         (set_length_remaining (Some (len buf)) self)).
Proof.
  intros Hb. unfold read, bind.
  rewrite (wrap_body_buffered _ _ Hb).
  by rewrite (wrap_body_stream _ (BytesIO buf)).
Qed.

Lemma counted_length_remaining n chunk self :
  length_remaining self = Some n → 0 ≤ n →
  length_remaining (counted n chunk self) = Some (Z.max (n - len chunk) 0).
Proof.
  intros Hn Hpos. unfold counted, len.
  destruct (Z.ltb_spec 0 n); simpl; [done|]. rewrite Hn. f_equal. lia.
Qed.

Lemma counted_body n chunk self :
  body (_response (counted n chunk self)) = body (_response self).
Proof. unfold counted. by destruct (0 <? n). Qed.

(** One [read] on a stream body with a counter: the body stays the same
    stream object over the same content, the position only advances, and
    the counter goes down by the advance, stopping at zero. *)
Lemma read_step self s n amt dc cc :
  body (_response self) = Stream s →
  length_remaining self = Some n → 0 ≤ n →
  ∃ s', body (_response (snd (read amt dc cc self))) = Stream s'
        ∧ io_buf s' = io_buf s
        ∧ io_reads s' = S (io_reads s)
        ∧ (io_pos s ≤ io_pos s')%nat
        ∧ length_remaining (snd (read amt dc cc self))
          = Some (Z.max (n - Z.of_nat (io_pos s' - io_pos s)) 0).
Proof.
  intros Hb Hn Hpos.
  destruct (amt_fits amt) eqn:Hfit; cycle 1.
  { rewrite (read_overflow _ _ _ _ _ Hb Hfit). exists (io_touch s). simpl.
    repeat split; [lia|]. rewrite Hn. f_equal. lia. }
  destruct (io_closed s) eqn:Hcl.
  - rewrite (read_closed _ _ _ _ _ Hb Hfit Hcl). exists (io_refuse s). simpl.
    repeat split; [lia|]. rewrite Hn. f_equal. lia.
  - destruct amt as [k|].
    + rewrite (read_some_open _ _ _ _ _ _ Hb Hfit Hcl Hn).
      exists (io_advance (Some k) s). simpl. rewrite counted_body. simpl.
      repeat split; [lia|].
      rewrite (counted_length_remaining n); [|done|done].
      f_equal. unfold len. lia.
    + rewrite (read_all_open _ _ _ _ _ Hb Hcl Hn).
      exists (io_advance None s). simpl. rewrite counted_body.
      destruct cc; simpl; (repeat split; [lia|]);
        (rewrite (counted_length_remaining n); [|done|done]);
        f_equal; unfold len; lia.
Qed.

(** The same over a sequence of calls. *)
Lemma run_reads_stream calls : ∀ self s n,
  body (_response self) = Stream s →
  length_remaining self = Some n → 0 ≤ n →
  ∃ s', body (_response (run_reads calls self)) = Stream s'
        ∧ io_buf s' = io_buf s
        ∧ io_reads s' = (io_reads s + length calls)%nat
        ∧ (io_pos s ≤ io_pos s')%nat
        ∧ length_remaining (run_reads calls self)
          = Some (Z.max (n - Z.of_nat (io_pos s' - io_pos s)) 0).
Proof.
  induction calls as [|[[amt dc] cc] calls IH]; intros self s n Hb Hn Hpos.
  - exists s. simpl. repeat split; [done|lia|lia|].
    rewrite Hn. f_equal. lia.
  - destruct (read_step self s n amt dc cc Hb Hn Hpos)
      as (s1 & Hb1 & Hbuf1 & Hr1 & Hp1 & Hn1).
    destruct (IH _ s1 _ Hb1 Hn1 ltac:(lia))
      as (s' & Hb' & Hbuf' & Hr' & Hp' & Hn').
    exists s'. unfold run_reads in *. simpl.
    repeat split; [done|congruence|lia|lia|].
    rewrite Hn'. f_equal. lia.
Qed.

(** C4 (as amended). For a wrapper whose body is a stream (every wrapper
    after its first [read]) and whose counter is a number [n >= 0]:
    a [read] that returns [chunk] leaves the counter at
    [max (n - len chunk) 0]; and after any sequence of [read] calls the
    counter is [n] less the bytes taken from the stream, stopping at
    zero, so it is never negative, never above [n], and stays zero once
    it is zero. *)
Theorem length_remaining_counts_down self s n :
  body (_response self) = Stream s →
  length_remaining self = Some n → 0 ≤ n →
  (∀ amt dc cc chunk self',
     read amt dc cc self = (Return chunk, self') →
     length_remaining self' = Some (Z.max (n - len chunk) 0))
  ∧ (∀ calls, ∃ s' m,
       body (_response (run_reads calls self)) = Stream s'
       ∧ length_remaining (run_reads calls self) = Some m
       ∧ m = Z.max (n - Z.of_nat (io_pos s' - io_pos s)) 0
       ∧ 0 ≤ m ≤ n
       ∧ (n = 0 → m = 0)).
Proof.
  intros Hb Hn Hpos. split.
  - intros amt dc cc chunk self' Hread.
    destruct (amt_fits amt) eqn:Hfit; cycle 1.
    { by rewrite (read_overflow _ _ _ _ _ Hb Hfit) in Hread. }
    destruct (io_closed s) eqn:Hcl.
    + by rewrite (read_closed _ _ _ _ _ Hb Hfit Hcl) in Hread.
    + destruct amt as [k|].
      * by rewrite (read_some_open _ _ _ _ _ _ Hb Hfit Hcl Hn) in Hread.
      * rewrite (read_all_open _ _ _ _ _ Hb Hcl Hn) in Hread.
        injection Hread as <- <-.
        apply counted_length_remaining; [|done].
        by destruct cc.
  - intros calls.
    destruct (run_reads_stream calls self s n Hb Hn Hpos)
      as (s' & Hb' & _ & _ & Hp' & Hn').
    exists s', (Z.max (n - Z.of_nat (io_pos s' - io_pos s)) 0).
    repeat split; [done|done|lia|lia|lia].
Qed.

(** C9 (as amended). The first [read] of a buffered body wraps the buffer
    in a stream over those bytes, at position 0, and overwrites
    [length_remaining] with the length of the buffer: the value the
    Length Resolver had stored is dropped. The wrapping happens once:
    every later [read] reaches the same stream object, whose call count
    goes on from 1. *)
Theorem buffered_body_wrapped_once self buf :
  body (_response self) = Buffered buf →
  (∃ self1, wrap_body self = (Return tt, self1)
      ∧ body (_response self1) = Stream (BytesIO buf)
      ∧ length_remaining self1 = Some (len buf)
      ∧ wrap_body self1 = (Return tt, self1))
  ∧ (∀ amt dc cc calls, ∃ s',
       body (_response (run_reads ((amt, dc, cc) :: calls) self)) = Stream s'
       ∧ io_buf s' = buf
       ∧ io_reads s' = S (length calls)
       ∧ length_remaining (run_reads ((amt, dc, cc) :: calls) self)
         = Some (Z.max (len buf - Z.of_nat (io_pos s')) 0)).
Proof.
  intros Hb. split.
  - eexists. split; [by apply wrap_body_buffered|].
    repeat split.
  - intros amt dc cc calls.
    pose (self1 := set_response_body (Stream (BytesIO buf))
                     (set_length_remaining (Some (len buf)) self)).
    destruct (run_reads_stream ((amt, dc, cc) :: calls) self1
                (BytesIO buf) (len buf) eq_refl eq_refl ltac:(unfold len; lia))
      as (s' & Hb' & Hbuf' & Hr' & Hp' & Hn').
    exists s'.
    assert (Heq : run_reads ((amt, dc, cc) :: calls) self
                  = run_reads ((amt, dc, cc) :: calls) self1).
    { unfold run_reads. simpl. by rewrite (read_buffered _ _ _ _ _ Hb). }
    rewrite Heq. repeat split; [done|done|by rewrite Hr'|].
    rewrite Hn'. simpl. f_equal. lia.
Qed.

(** A [read(None)] with a body that can be counted is a [read(None)] on
    an open stream with a counter: the wrapper itself, or the wrapper
    with its buffer wrapped. *)
Lemma read_all_countable self dc cc :
  countable_body self →
  ∃ self0 s0 n0,
    read None dc cc self = read None dc cc self0
    ∧ body (_response self0) = Stream s0 ∧ io_closed s0 = false
    ∧ length_remaining self0 = Some n0
    ∧ _body self0 = _body self
    ∧ body_reads self0 = body_reads self.
Proof.
  unfold countable_body, body_reads.
  destruct (body (_response self)) as [buf|s] eqn:Hb.
  - intros _. eexists _, (BytesIO buf), (len buf).
    split; [by apply read_buffered|]. done.
  - intros [Hopen [n Hn]]. exists self, s, n. by rewrite Hb.
Qed.

Lemma counted__body n chunk self :
  _body (counted n chunk self) = _body self.
Proof. unfold counted. by destruct (0 <? n). Qed.

Lemma counted_is_Some n chunk self :
  is_Some (length_remaining self) →
  is_Some (length_remaining (counted n chunk self)).
Proof. unfold counted. destruct (0 <? n); simpl; eauto. Qed.

(** After a [read(None)] the stream is at its end. *)
Lemma io_chunk_at_end s : io_chunk None (io_advance None s) = [].
Proof.
  unfold io_chunk, io_advance. simpl.
  apply drop_ge. rewrite length_drop. lia.
Qed.

End Reads.

(** ** The cached body *)

Section Data.

Implicit Types (self : Wrapper).

Lemma data_cached self c cs :
  _body self = Some (c :: cs) → data self = (Return (c :: cs), self).
Proof. intros Hc. unfold data. by rewrite Hc. Qed.

Lemma data_uncached self :
  _body self = None ∨ _body self = Some [] →
  data self = read None None true self.
Proof. intros [Hc|Hc]; unfold data; by rewrite Hc. Qed.

(** Two accesses to [data]. When [data] has a non-empty cache, or a
    buffered body, or an open stream with a counter, it returns some bytes
    [d] after at most one [read] call on the body. If [d] is not empty, a
    second [data] returns [d] again and leaves the wrapper as it is (no
    further [read] on the body); and any wrapper whose cache holds
    non-empty bytes returns them untouched, whatever the state of its
    body. If [d] is empty, the first access did read the body and the
    second access reads it again. *)
Theorem data_twice self :
  readable self →
  ∃ d self1,
    data self = (Return d, self1)
    ∧ (body_reads self1 ≤ S (body_reads self))%nat
    ∧ (d ≠ [] → data self1 = (Return d, self1))
    ∧ (d = [] →
       body_reads self1 = S (body_reads self)
       ∧ ∃ self2, data self1 = (Return [], self2)
                  ∧ body_reads self2 = S (body_reads self1))
    ∧ (∀ self' c cs, _body self' = Some (c :: cs) →
                     data self' = (Return (c :: cs), self')).
Proof.
  intros Hr.
  assert (Hcached : ∀ self' c cs, _body self' = Some (c :: cs) →
                                  data self' = (Return (c :: cs), self'))
    by (intros; by apply data_cached).
  assert (Hcases : (∃ c cs, _body self = Some (c :: cs))
                   ∨ (_body self = None ∨ _body self = Some [])).
  { destruct (_body self) as [[|c cs]|]; eauto. }
  destruct Hcases as [(c & cs & Hc)|Hun].
  { exists (c :: cs), self. rewrite (data_cached _ _ _ Hc).
    split_and!; [done|lia|done|done|done]. }
  assert (Hcb : countable_body self).
  { unfold readable in Hr. by destruct Hun as [Hu|Hu]; rewrite Hu in Hr. }
  destruct (read_all_countable self None true Hcb)
    as (self0 & s0 & n0 & Hread & Hb0 & Hopen0 & Hn0 & _ & Hreads0).
  rewrite (data_uncached _ Hun), Hread.
  rewrite (read_all_open _ _ _ _ _ Hb0 Hopen0 Hn0).
  set (d := io_chunk None s0).
  set (self1 := counted n0 d _).
  assert (Hb1 : body (_response self1) = Stream (io_advance None s0)).
  { unfold self1. by rewrite counted_body. }
  assert (Hc1 : _body self1 = Some d).
  { unfold self1. by rewrite counted__body. }
  assert (Hreads1 : body_reads self1 = S (body_reads self)).
  { rewrite <- Hreads0. unfold body_reads. by rewrite Hb1, Hb0. }
  exists d, self1. split_and!; [done|lia| | |done].
  - intros Hd. destruct d as [|c cs]; [done|]. by apply data_cached.
  - intros Hd. split; [done|].
    assert (Hn1 : is_Some (length_remaining self1)).
    { unfold self1. apply counted_is_Some. simpl. eauto. }
    destruct Hn1 as [n1 Hn1].
    rewrite data_uncached; [|right; by rewrite Hc1, Hd].
    rewrite (read_all_open _ _ _ _ _ Hb1 eq_refl Hn1).
    rewrite (io_chunk_at_end s0).
    eexists. split; [reflexivity|].
    unfold body_reads. by rewrite counted_body, Hb1.
Qed.

End Data.

(** ** The chunk generator *)

Section Chunks.

Implicit Types (self : Wrapper).

(** X24. Without [amt], and with a body that can be counted, the generator
    ends within two resumptions: it yields the whole body as one chunk
    when there is any, and stops at the empty read that follows; the
    chunks put together are what [read(None)] returns. *)
Lemma read_chunked_all self dc fuel :
  countable_body self →
  ∃ d self1 self2,
    read None dc false self = (Return d, self1)
    ∧ read_chunked (S (S fuel)) None dc self
      = (match d with [] => [] | _ => [d] end, Exhausted, self2)
    ∧ concat (match d with [] => [] | _ => [d] end) = d.
Proof.
  intros Hcb.
  destruct (read_all_countable self dc false Hcb)
    as (self0 & s0 & n0 & Hread & Hb0 & Hopen0 & Hn0 & _ & _).
  pose proof (read_all_open _ _ _ dc false Hb0 Hopen0 Hn0) as Hr0.
  rewrite <- Hread in Hr0.
  set (d := io_chunk None s0) in *.
  match type of Hr0 with _ = (_, ?w) => set (self1 := w) in * end.
  assert (Hb1 : body (_response self1) = Stream (io_advance None s0)).
  { unfold self1. by rewrite counted_body. }
  assert (Hn1 : is_Some (length_remaining self1)).
  { unfold self1. apply counted_is_Some. simpl. eauto. }
  destruct Hn1 as [n1 Hn1].
  pose proof (read_all_open _ _ _ dc false Hb1 eq_refl Hn1) as Hr1.
  exists d, self1.
  destruct d as [|c cs] eqn:Hd.
  - eexists. split; [done|]. split; [|done].
    simpl. unfold read_chunked_next. by rewrite Hr0.
  - eexists. split; [done|]. split; [|simpl; by rewrite app_nil_r].
    simpl. unfold read_chunked_next. rewrite Hr0, Hr1.
    by rewrite io_chunk_at_end.
Qed.


(** C6, at a failing input: a buffered body [b"ab"] read in chunks of one
    byte. The generator yields nothing and ends in [NameError], while
    [read(None)] on the same fresh body returns [b"ab"]. *)
Theorem read_chunked_sized_raises :
  let self := wrapper_of [] 200 false (Buffered (bytes_of "ab")) None in
  (∃ self', read_chunked 3 (Some 1) None self
            = ([], Failed (NameError "read_data"), self'))
  ∧ (∃ self', read None None false self = (Return (bytes_of "ab"), self')).
Proof. split; eexists; vm_compute; reflexivity. Qed.

(** A stream body whose length is unknown: the first [read] takes the
    bytes and then fails on the comparison of [None] with 0. *)
Lemma read_chunked_unknown_length_raises :
  let self :=
    wrapper_of [] 200 false (Stream (BytesIO (bytes_of "ab"))) None in
  ∃ msg self', read_chunked 3 None None self
               = ([], Failed (TypeError msg), self').
Proof. do 2 eexists. vm_compute. reflexivity. Qed.

End Chunks.

(** ** Releasing the connection *)

Section Release.

Implicit Types (self : Wrapper).

(** C7. [release_conn] changes nothing when the wrapper has no pool or
    no connection. Otherwise it hands the connection to the pool, which
    receives it once, and clears the handle; a second call changes
    nothing more, so two calls leave the wrapper and its pool as one
    call does. *)
Theorem release_conn_once self :
  (_pool self = None ∨ _connection self = None →
   release_conn self = (Return tt, self))
  ∧ (∀ pool conn,
       _pool self = Some pool → _connection self = Some conn →
       ∃ self1,
         release_conn self = (Return tt, self1)
         ∧ _pool self1 = Some (_put_conn conn pool)
         ∧ pool_returned self1 = conn :: pool_returned self
         ∧ _connection self1 = None
         ∧ release_conn self1 = (Return tt, self1))
  ∧ (release_conn ;;; release_conn) self = release_conn self.
Proof.
  split_and!.
  - unfold release_conn. intros [Hp|Hc].
    + by rewrite Hp.
    + rewrite Hc. by destruct (_pool self).
  - intros pool conn Hp Hc. eexists. unfold release_conn at 1.
    rewrite Hp, Hc. split_and!; try reflexivity.
    unfold pool_returned. by rewrite Hp.
  - unfold bind, release_conn.
    destruct (_pool self) as [pool|] eqn:Hp; [|by rewrite Hp].
    destruct (_connection self) as [conn|] eqn:Hc; [done|].
    simpl. by rewrite Hp, Hc.
Qed.

End Release.

(** ** JSON *)

Section JsonProperties.

Context {text value : Type}.
Variable decode_utf8 : bytes → option text.
Variable loads : text → option value.

(** An exception of [data] passes through [json]. *)
Lemma json_data_raises self e self1 :
  data self = (Raise e, self1) →
  json text value decode_utf8 loads self = (Raise e, self1).
Proof. intros Hd. unfold json, bind. by rewrite Hd. Qed.

(** When [data] returns, [json] decodes its bytes as UTF-8 and
    parses the text: it returns the parsed value when both steps succeed,
    raises [UnicodeDecodeError] when the bytes do not decode, and raises
    [JSONDecodeError] when the text does not parse; the two exceptions
    are different and neither is caught. *)
Theorem json_decodes_or_raises self raw self1 :
  data self = (Return raw, self1) →
  (∀ t v, decode_utf8 raw = Some t → loads t = Some v →
          json text value decode_utf8 loads self = (Return v, self1))
  ∧ (decode_utf8 raw = None →
     json text value decode_utf8 loads self
     = (Raise UnicodeDecodeError, self1))
  ∧ (∀ t, decode_utf8 raw = Some t → loads t = None →
          json text value decode_utf8 loads self
          = (Raise JSONDecodeError, self1))
  ∧ UnicodeDecodeError ≠ JSONDecodeError.
Proof.
  intros Hd. unfold json, bind. rewrite Hd. split_and!.
  - intros t v Ht Hv. by rewrite Ht, Hv.
  - intros Ht. by rewrite Ht.
  - intros t Ht Hv. by rewrite Ht, Hv.
  - done.
Qed.

End JsonProperties.

(** ** The retries setter *)

Section Retries.

Implicit Types (self : Wrapper) (r : option Retry).

(** C10. The setter always stores the value it is given. It changes the
    URL exactly when the value is not [None] and its history is not
    empty, to the redirect location of the last entry of the history.
    Nothing else in the wrapper changes. *)
Theorem retries_setter_frame self r :
  ∃ self1,
    retries_setter r self = (Return tt, self1)
    ∧ retries self1 = r
    ∧ (∀ (given : Retry) entry,
         r = Some given → last (history given) = Some entry →
         url self1 = redirect_location entry)
    ∧ (r = None ∨ (∃ given : Retry, r = Some given ∧ history given = []) →
       url self1 = url self)
    ∧ _pool self1 = _pool self
    ∧ _body self1 = _body self
    ∧ _response self1 = _response self
    ∧ _connection self1 = _connection self
    ∧ headers self1 = headers self
    ∧ status self1 = status self
    ∧ chunked self1 = chunked self
    ∧ length_remaining self1 = length_remaining self.
Proof.
  unfold retries_setter, url_setter, bind, set_attr, retries, url.
  destruct r as [given|].
  - destruct (last (history given)) as [entry|] eqn:Hlast.
    + eexists. split; [reflexivity|]. simpl. split_and!; try done.
      * intros r0 e0 [= <-]. rewrite Hlast. by intros [= <-].
      * intros [?|(r0 & [= <-] & Hnil)]; [done|].
        by rewrite Hnil in Hlast.
    + eexists. split; [reflexivity|]. simpl. split_and!; try done.
      intros r0 e0 [= <-]. by rewrite Hlast.
  - eexists. split; [reflexivity|]. simpl. split_and!; try done.
Qed.

End Retries.

(** * Instances and counterexamples *)

Section Examples.



Lemma content_length_with_chunked_witness :
  _init_length (with_length "5" 200 true) (Some "GET")
  = (Raise (NameError "log"), []).
Proof.
  apply (content_length_with_chunked (with_length "5" 200 true)
           (Some "GET") "5"); reflexivity.
Defined.

(** C3 fails as stated: with status 204 and the method HEAD, a
    [Content-Length] next to a chunked encoding, and [Content-Length]
    values that differ, end the call before the override is reached:
    neither gives [Some 0]. *)
Lemma no_body_override_skipped :
  fst (_init_length (with_length "5" 204 true) (Some "HEAD"))
  ≠ Return (Some 0)
  ∧ (∃ e, fst (_init_length (with_length "5" 204 true) (Some "HEAD"))
          = Raise e)
  ∧ fst (_init_length (with_length "42, 43" 204 false) (Some "HEAD"))
    ≠ Return (Some 0)
  ∧ (∃ e, fst (_init_length (with_length "42, 43" 204 false) (Some "HEAD"))
          = Raise e).
Proof.
  split_and!; try (vm_compute; done); eexists; vm_compute; reflexivity.
Qed.

Lemma no_body_override_witness :
  _init_length (with_length "42, 42" 204 false) (Some "GET")
  = (Return (Some 0), [])
  ∧ _init_length (with_length "42, abc" 150 false) (Some "GET")
    = (Return (Some 0), [])
  ∧ _init_length (wrapper_of [] 200 true (Buffered []) None) (Some "HEAD")
    = (Return (Some 0), []).
Proof.
  split_and!.
  - apply no_body_override; [by left|by right|].
    intros cl v1 v2 n1 n2 [= <-] _ Hv1 Hv2.
    apply list_elem_of_In in Hv1, Hv2. simpl in Hv1, Hv2.
    destruct Hv1 as [<-|[<-|[]]], Hv2 as [<-|[<-|[]]];
      vm_compute; congruence.
  - apply no_body_override; [right; right; left; simpl; lia|by right|].
    intros cl v1 v2 n1 n2 [= <-] Hall. exfalso.
    apply Forall_cons in Hall as [_ Hall].
    apply Forall_cons in Hall as [[n Hn] _]. vm_compute in Hn. discriminate.
  - apply no_body_override; [by repeat right|by left|].
    intros cl v1 v2 n1 n2 Hcl. vm_compute in Hcl. discriminate.
Defined.

(** A stream of 5 bytes with the counter at 5: after [read(2)] and two
    [read(None)] the counter is 0. *)
Lemma length_remaining_counts_down_witness :
  (∀ amt dc cc chunk self',
     read amt dc cc (streamed "hello" (Some 5)) = (Return chunk, self') →
     length_remaining self' = Some (Z.max (5 - len chunk) 0))
  ∧ (∃ s' m,
       body (_response
               (run_reads [(Some 2, None, false); (None, None, false);
                           (None, None, false)]
                  (streamed "hello" (Some 5)))) = Stream s'
       ∧ length_remaining
           (run_reads [(Some 2, None, false); (None, None, false);
                       (None, None, false)]
              (streamed "hello" (Some 5))) = Some m
       ∧ m = Z.max (5 - Z.of_nat (io_pos s' - 0)) 0
       ∧ 0 ≤ m ≤ 5
       ∧ (5 = 0 → m = 0)).
Proof.
  destruct (length_remaining_counts_down (streamed "hello" (Some 5))
              (BytesIO (bytes_of "hello")) 5 eq_refl eq_refl ltac:(lia))
    as [Hone Hseq].
  split; [exact Hone|].
  exact (Hseq [(Some 2, None, false); (None, None, false);
               (None, None, false)]).
Defined.

(** C4 fails as stated: a 204 response has the counter at 0; when its
    body is a buffer of 3 bytes, a first [read(1)] leaves the counter
    at 2. *)
Lemma length_remaining_revived :
  _init_length (buffered "abc" 204 None) (Some "GET") = (Return (Some 0), [])
  ∧ length_remaining (buffered "abc" 204 (Some 0)) = Some 0
  ∧ ∃ m, length_remaining
           (run_reads [(Some 1, None, false)] (buffered "abc" 204 (Some 0)))
         = Some m
         ∧ 0 < m.
Proof.
  split_and!; [reflexivity|reflexivity|].
  exists 2. split; [vm_compute; reflexivity|lia].
Qed.

Lemma buffered_body_wrapped_once_witness :
  (∃ self1, wrap_body (buffered "hello" 200 (Some 2)) = (Return tt, self1)
      ∧ body (_response self1) = Stream (BytesIO (bytes_of "hello"))
      ∧ length_remaining self1 = Some 5
      ∧ wrap_body self1 = (Return tt, self1))
  ∧ (∀ amt dc cc calls, ∃ s',
       body (_response (run_reads ((amt, dc, cc) :: calls)
                          (buffered "hello" 200 (Some 2)))) = Stream s'
       ∧ io_buf s' = bytes_of "hello"
       ∧ io_reads s' = S (length calls)
       ∧ length_remaining (run_reads ((amt, dc, cc) :: calls)
                             (buffered "hello" 200 (Some 2)))
         = Some (Z.max (5 - Z.of_nat (io_pos s')) 0)).
Proof.
  exact (buffered_body_wrapped_once (buffered "hello" 200 (Some 2))
           (bytes_of "hello") eq_refl).
Defined.

(** C9 fails as stated: with [Content-Length: 2] the resolver gives 2;
    a buffer of 5 bytes replaces it by 5, which is not the smaller of the
    two, and [read(None)] hands out all 5 bytes. *)
Lemma buffer_length_replaces_resolved :
  let self :=
    wrapper_of [("content-length", "2")] 200 false
      (Buffered (bytes_of "hello")) (Some 2) in
  _init_length self (Some "GET") = (Return (Some 2), [])
  ∧ length_remaining (snd (wrap_body self)) = Some 5
  ∧ length_remaining (snd (wrap_body self)) ≠ Some (Z.min 2 5)
  ∧ fst (read None None false self) = Return (bytes_of "hello")
  ∧ length_remaining (snd (read (Some 1) None false self)) = Some 4.
Proof. split_and!; vm_compute; done. Qed.

Lemma data_twice_witness :
  ∃ d self1,
    data (buffered "Hello, world!" 200 None) = (Return d, self1)
    ∧ d = bytes_of "Hello, world!"
    ∧ data self1 = (Return d, self1)
    ∧ body_reads self1 = 1%nat.
Proof.
  destruct (data_twice (buffered "Hello, world!" 200 None) I)
    as (d & self1 & Hd & Hle & Hsame & _).
  exists d, self1.
  assert (Hval : d = bytes_of "Hello, world!").
  { vm_compute in Hd. by injection Hd as <- _. }
  split_and!; [done|done| |].
  - apply Hsame. by rewrite Hval.
  - vm_compute in Hd. by injection Hd as _ <-.
Defined.

(** C5, at a failing input: a buffered body that is empty. [read] stores
    the empty bytes in the cache and [if self._body:] does not see them:
    the two accesses return the same empty bytes but each reads the body,
    and once the stream is closed a further access raises instead of
    returning the cache. *)
Lemma data_rereads_empty_body :
  ∃ self1 self2,
    data (buffered "" 200 None) = (Return [], self1)
    ∧ _body self1 = Some []
    ∧ data self1 = (Return [], self2)
    ∧ body_reads self1 = 1%nat
    ∧ body_reads self2 = 2%nat
    ∧ ∃ msg, fst (data (snd (close self1))) = Raise (ValueError msg).
Proof.
  do 2 eexists. split_and!; try (vm_compute; reflexivity).
  eexists. vm_compute. reflexivity.
Qed.

Lemma release_conn_once_witness :
  (∃ self1,
     release_conn pooled = (Return tt, self1)
     ∧ _pool self1 = Some {| returned := [7%nat] |}
     ∧ pool_returned self1 = [7%nat]
     ∧ _connection self1 = None
     ∧ release_conn self1 = (Return tt, self1))
  ∧ release_conn (buffered "" 200 None)
    = (Return tt, buffered "" 200 None).
Proof.
  split.
  - destruct (release_conn_once pooled) as (_ & Hrel & _).
    exact (Hrel {| returned := [] |} 7%nat eq_refl eq_refl).
  - destruct (release_conn_once (buffered "" 200 None)) as (Hnoop & _).
    apply Hnoop. by left.
Defined.

(** C8, at a failing input: an open stream that holds the JSON text
    [[1, 2]], of a response without [Content-Length], for which the
    resolver's answer is [None]. Whatever the decoder and the parser,
    [json] does not return the parsed value: [read] fails on the
    comparison of [None] with 0 and [json] raises [TypeError]. *)
Theorem json_unknown_length_raises :
  fst (_init_length (streamed "[1, 2]" None) (Some "GET")) = Return None
  ∧ length_remaining (streamed "[1, 2]" None) = None
  ∧ ∀ (text value : Type) (decode_utf8 : bytes → option text)
      (loads : text → option value),
      ∃ msg self1,
        json text value decode_utf8 loads (streamed "[1, 2]" None)
        = (Raise (TypeError msg), self1).
Proof.
  split_and!; [vm_compute; reflexivity|reflexivity|].
  intros text value decode_utf8 loads. eexists _, _.
  apply json_data_raises. vm_compute. reflexivity.
Qed.

(** [b"true"] parses; [b"Hello, world!"] decodes but does not parse; a
    byte [0xff] does not decode. *)
Lemma json_decodes_or_raises_witness :
  (∃ self1, json string Literal decode_ascii loads_literal
              (buffered "true" 200 None) = (Return JTrue, self1))
  ∧ (∃ self1, json string Literal decode_ascii loads_literal
                (buffered "Hello, world!" 200 None)
              = (Raise JSONDecodeError, self1))
  ∧ (∃ self1, json string Literal decode_ascii loads_literal
                (wrapper_of [] 200 false (Buffered [Byte.xff]) None)
              = (Raise UnicodeDecodeError, self1)).
Proof.
  split_and!; eexists.
  - eapply (json_decodes_or_raises decode_ascii loads_literal
              (buffered "true" 200 None) (bytes_of "true"));
      vm_compute; reflexivity.
  - eapply (json_decodes_or_raises decode_ascii loads_literal
              (buffered "Hello, world!" 200 None)
              (bytes_of "Hello, world!"));
      vm_compute; reflexivity.
  - eapply (json_decodes_or_raises decode_ascii loads_literal
              (wrapper_of [] 200 false (Buffered [Byte.xff]) None)
              [Byte.xff]);
      vm_compute; reflexivity.
Defined.

Lemma retries_setter_frame_witness :
  ∃ self1,
    retries_setter (Some redirected) (buffered "" 200 None)
    = (Return tt, self1)
    ∧ retries self1 = Some redirected
    ∧ url self1 = Some "/b"
    ∧ length_remaining self1 = None.
Proof.
  destruct (retries_setter_frame (buffered "" 200 None) (Some redirected))
    as (self1 & Hrun & Hret & Hurl & _ & _ & _ & _ & _ & _ & _ & _ & Hlen).
  exists self1. split_and!; [done|done| |done].
  exact (Hurl redirected {| redirect_location := Some "/b" |}
           eq_refl eq_refl).
Defined.

End Examples.


(** * Further properties of the Length Resolver *)

Section ResolverOutcomes.

Implicit Types (self : Wrapper) (cl : string).

(** A set with more than one element has two different elements. *)
Lemma two_elems_of_size (X : gset Z) :
  (1 < size X)%nat → ∃ a c, a ∈ X ∧ c ∈ X ∧ a ≠ c.
Proof.
  unfold size, set_size. simpl.
  pose proof (NoDup_elements X) as Hnd.
  pose proof (λ x, elem_of_elements X x) as Hel.
  destruct (elements X) as [|a [|c l]]; simpl; [lia|lia|]. intros _.
  exists a, c. split_and!.
  - apply Hel. by left.
  - apply Hel. right. by left.
  - intros ->. apply NoDup_cons in Hnd as [Hnotin _]. apply Hnotin. by left.
Qed.

(** What the [try] block can end in: a value all pieces agree on, the
    [ValueError] of a piece that is no integer, or the [NameError] of
    the [raise] for pieces that are integers and differ. It never ends in
    [KeyError]. *)
Lemma parse_lengths_cases cl :
  (∃ n, parse_lengths cl = Return n
        ∧ Forall (λ v, PyStr.int v = Some n) (PyStr.split "," cl))
  ∨ (∃ msg, parse_lengths cl = Raise (ValueError msg)
            ∧ Exists (λ v, PyStr.int v = None) (PyStr.split "," cl))
  ∨ (parse_lengths cl = Raise (NameError "InvalidHeader")
     ∧ Forall (λ v, is_Some (PyStr.int v)) (PyStr.split "," cl)
     ∧ ∃ v1 v2 n1 n2,
         v1 ∈ PyStr.split "," cl ∧ v2 ∈ PyStr.split "," cl
         ∧ PyStr.int v1 = Some n1 ∧ PyStr.int v2 = Some n2 ∧ n1 ≠ n2).
Proof.
  destruct (mapM PyStr.int (PyStr.split "," cl)) as [vals|] eqn:Hm.
  - pose proof Hm as HF. apply mapM_Some in HF.
    assert (Hsome : Forall (λ v, is_Some (PyStr.int v)) (PyStr.split "," cl)).
    { apply Forall_forall. intros v Hv.
      apply list_elem_of_lookup in Hv as [i Hi].
      destruct (Forall2_lookup_l _ _ _ _ _ HF Hi) as (y & _ & Hy). eauto. }
    assert (Hback : ∀ n, n ∈ vals →
              ∃ v, v ∈ PyStr.split "," cl ∧ PyStr.int v = Some n).
    { intros n Hn. apply list_elem_of_lookup in Hn as [i Hi].
      destruct (Forall2_lookup_r _ _ _ _ _ HF Hi) as (v & Hv & Hvn).
      exists v. split; [|done]. apply list_elem_of_lookup. eauto. }
    destruct (decide (1 < size (list_to_set (C:=gset Z) vals))%nat)
      as [Hbig|Hsmall].
    + right. right. split_and!; [|done|].
      * unfold parse_lengths. rewrite Hm.
        apply Nat.ltb_lt in Hbig. by rewrite Hbig.
      * destruct (two_elems_of_size _ Hbig) as (a & c & Ha & Hc & Hne).
        apply elem_of_list_to_set in Ha, Hc.
        destruct (Hback a Ha) as (v1 & Hv1 & Hn1).
        destruct (Hback c Hc) as (v2 & Hv2 & Hn2).
        exists v1, v2, a, c. done.
    + left.
      pose proof (split_nonempty "," cl) as Hne.
      destruct (PyStr.split "," cl) as [|v0 vs] eqn:Hsp; [done|].
      destruct (Forall_inv Hsome) as [n0 Hn0]. exists n0.
      assert (Hall : Forall (λ v, PyStr.int v = Some n0) (v0 :: vs)).
      { apply Forall_forall. intros v Hv.
        rewrite Forall_forall in Hsome. destruct (Hsome v Hv) as [n Hn].
        rewrite Hn. f_equal.
        destruct (decide (n = n0)) as [|Hdiff]; [done|]. exfalso.
        apply Hsmall. apply (size_two_elems _ n n0); [| |done];
          apply elem_of_list_to_set.
        - apply list_elem_of_lookup in Hv as [i Hi].
          destruct (Forall2_lookup_l _ _ _ _ _ HF Hi) as (y & Hy & Hvy).
          rewrite Hn in Hvy. injection Hvy as <-.
          apply list_elem_of_lookup. eauto.
        - inversion HF as [|? y ? ? Hy _]; subst.
          rewrite Hn0 in Hy. injection Hy as <-. by left. }
      split; [|done]. apply parse_lengths_equal. by rewrite Hsp.
  - right. left. apply mapM_None in Hm.
    destruct (parse_lengths_invalid cl Hm) as [msg Hmsg]. eauto.
Qed.

(** X2. The resolver raises exactly in two cases, both with a
    [Content-Length] header: the encoding is chunked, and the exception is
    the [NameError] of [log]; or the encoding is not chunked, every value
    is an integer and two values differ, and the exception is the
    [NameError] of [InvalidHeader]. Without the header, and for a value
    that is no integer, it never raises. *)
Theorem resolver_raises_iff self rm e :
  fst (_init_length self rm) = Raise e ↔
  ∃ cl,
    headers self !! "content-length" = Some cl
    ∧ ((chunked self = true ∧ e = NameError "log")
       ∨ (chunked self = false
          ∧ e = NameError "InvalidHeader"
          ∧ Forall (λ v, is_Some (PyStr.int v)) (PyStr.split "," cl)
          ∧ ∃ v1 v2 n1 n2,
              v1 ∈ PyStr.split "," cl ∧ v2 ∈ PyStr.split "," cl
              ∧ PyStr.int v1 = Some n1 ∧ PyStr.int v2 = Some n2
              ∧ n1 ≠ n2)).
Proof.
  unfold _init_length. split.
  - destruct (headers self !! "content-length") as [cl|]; [|done].
    destruct (chunked self).
    { simpl. intros [= <-]. exists cl. split; [done|]. by left. }
    destruct (parse_lengths_cases cl)
      as [(n & -> & _)|[(msg & -> & _)|(-> & Hall & Hdiff)]]; [done|done|].
    simpl. intros [= <-]. exists cl. split; [done|]. by right.
  - intros (cl & -> & [[-> ->]|(-> & -> & Hall & v1 & v2 & n1 & n2
            & Hv1 & Hv2 & Hn1 & Hn2 & Hne)]); [done|].
    by rewrite (parse_lengths_unmatching _ _ _ _ _ Hall Hv1 Hv2 Hn1 Hn2 Hne).
Qed.

(** X3. Whatever the headers, the status and the method, a length the
    resolver returns is one of the integers written in the
    [Content-Length] header, or 0. *)
Theorem resolver_returns_written_value self rm n warnings :
  _init_length self rm = (Return (Some n), warnings) →
  n = 0
  ∨ ∃ cl, headers self !! "content-length" = Some cl
          ∧ Forall (λ v, PyStr.int v = Some n) (PyStr.split "," cl).
Proof.
  unfold _init_length, finish_length.
  destruct (headers self !! "content-length") as [cl|].
  - destruct (chunked self); [done|].
    destruct (parse_lengths_cases cl)
      as [(m & -> & Hall)|[(msg & -> & _)|(-> & _)]]; simpl; [| |done].
    + destruct (no_body _ _); [intros [= <- _]; by left|].
      destruct (m <? 0); [done|]. intros [= <- _]. right. eauto.
    + destruct (no_body _ _); [intros [= <- _]; by left|done].
  - destruct (no_body _ _); [intros [= <- _]; by left|done].
Qed.

End ResolverOutcomes.

(** ** Decimal numerals in the header *)

Section Numerals.

Implicit Types (self : Wrapper) (s : string) (c : ascii).

Lemma digit_value_range c d : PyStr.digit_value c = Some d → 0 ≤ d ≤ 9.
Proof.
  unfold PyStr.digit_value.
  destruct (_ && _) eqn:Hrange; [|done]. intros [= <-].
  apply andb_true_iff in Hrange as [H1 H2].
  apply Nat.leb_le in H1, H2. lia.
Qed.

(** A text that starts with a digit has no white space, sign or
    underscore for [int] to deal with before the digits. *)
Lemma int_digit_head c r :
  is_Some (PyStr.digit_value c) →
  PyStr.int (String c r)
  = match PyStr.scan_digits false 0 0%nat (String c r) with
    | Some (v, nd, rest) =>
        if (nd =? 0)%nat then None
        else if (0 <? PyStr.int_max_str_digits)%nat
                && (PyStr.int_max_str_digits <? nd)%nat
        then None
        else if PyStr.all_space rest then Some v else None
    | None => None
    end.
Proof.
  intros [d Hd].
  destruct c as [[] [] [] [] [] [] [] []];
    try (cbv in Hd; discriminate Hd); reflexivity.
Qed.

Lemma scan_digits_digits s : ∀ acc nd,
  digits_only s = true →
  PyStr.scan_digits false acc nd s
  = Some (numeral_value acc s, (nd + String.length s)%nat, EmptyString).
Proof.
  induction s as [|c r IH]; intros acc nd Hs; simpl in *.
  - by rewrite Nat.add_0_r.
  - destruct (PyStr.digit_value c) as [d|]; [|done].
    rewrite (IH _ _ Hs). do 3 f_equal. lia.
Qed.

(** [int] reads a text of 1 to 4300 digits as the number they denote. *)
Lemma int_digits s :
  digits_only s = true → s ≠ EmptyString →
  (String.length s ≤ PyStr.int_max_str_digits)%nat →
  PyStr.int s = Some (numeral_value 0 s).
Proof.
  intros Hs Hne Hlen. destruct s as [|c r]; [done|].
  rewrite int_digit_head.
  - rewrite (scan_digits_digits _ _ _ Hs).
    change (0 + String.length (String c r))%nat
      with (S (String.length r)).
    change (String.length (String c r)) with (S (String.length r)) in Hlen.
    replace (S (String.length r) =? 0)%nat with false
      by (symmetry; apply Nat.eqb_neq; lia).
    replace (PyStr.int_max_str_digits <? S (String.length r))%nat with false
      by (symmetry; apply Nat.ltb_ge; lia).
    by rewrite andb_false_r.
  - simpl in Hs. destruct (PyStr.digit_value c); [eauto|done].
Qed.

Lemma numeral_value_nonneg s : ∀ acc, 0 ≤ acc → 0 ≤ numeral_value acc s.
Proof.
  induction s as [|c r IH]; intros acc Hacc; simpl; [done|].
  destruct (PyStr.digit_value c) as [d|] eqn:Hd; [|done].
  apply IH. apply digit_value_range in Hd. lia.
Qed.

(** A text of digits has no comma to split at. *)
Lemma split_digits s : digits_only s = true → PyStr.split "," s = [s].
Proof.
  induction s as [|c r IH]; intros Hs; simpl in *; [done|].
  destruct (PyStr.digit_value c) as [d|] eqn:Hd; [|done].
  destruct (Ascii.eqb_spec c ",") as [->|_]; [by cbv in Hd|].
  by rewrite (IH Hs).
Qed.

Lemma pretty_N_char_digit (d : N) :
  (d < 10)%N → PyStr.digit_value (pretty_N_char d) = Some (Z.of_N d).
Proof.
  intros Hd.
  assert (d = 0 ∨ d = 1 ∨ d = 2 ∨ d = 3 ∨ d = 4 ∨ d = 5 ∨ d = 6
          ∨ d = 7 ∨ d = 8 ∨ d = 9)%N as Hcases by lia.
  repeat (destruct Hcases as [->|Hcases]; [reflexivity|]).
  by rewrite Hcases.
Qed.

Lemma pretty_N_go_digits (x : N) : ∀ s,
  digits_only s = true → digits_only (pretty_N_go x s) = true.
Proof.
  induction (N.lt_wf_0 x) as [x _ IH]; intros s Hs.
  destruct (decide (0 < x)%N) as [Hpos|Hzero].
  - rewrite pretty_N_go_step by done.
    apply IH; [by apply N.div_lt|]. simpl.
    rewrite pretty_N_char_digit; [done|]. by apply N.mod_lt.
  - assert (x = 0%N) as -> by lia. by rewrite pretty_N_go_0.
Qed.

Lemma pretty_N_go_value (x : N) : ∀ s,
  ∃ m, ∀ acc,
    numeral_value acc (pretty_N_go x s)
    = numeral_value (acc * m + Z.of_N x) s.
Proof.
  induction (N.lt_wf_0 x) as [x _ IH]; intros s.
  destruct (decide (0 < x)%N) as [Hpos|Hzero].
  - rewrite pretty_N_go_step by done.
    destruct (IH (x `div` 10)%N ltac:(by apply N.div_lt)
                 (String (pretty_N_char (x `mod` 10)) s)) as [m Hm].
    exists (10 * m). intros acc. rewrite Hm. simpl.
    rewrite pretty_N_char_digit by (by apply N.mod_lt).
    f_equal. pose proof (N.div_mod x 10 ltac:(done)) as Hdm. lia.
  - assert (x = 0%N) as -> by lia. exists 1. intros acc.
    rewrite pretty_N_go_0. f_equal. lia.
Qed.

Lemma pretty_N_digits (n : N) : digits_only (pretty n) = true.
Proof.
  unfold pretty, pretty_N. destruct (decide (n = 0%N)); [done|].
  by apply pretty_N_go_digits.
Qed.

Lemma pretty_N_value (n : N) : numeral_value 0 (pretty n) = Z.of_N n.
Proof.
  unfold pretty, pretty_N. destruct (decide (n = 0%N)) as [->|]; [done|].
  destruct (pretty_N_go_value n EmptyString) as [m Hm].
  rewrite Hm. simpl. lia.
Qed.

Lemma pretty_N_nonempty (n : N) : pretty n ≠ EmptyString.
Proof.
  unfold pretty, pretty_N. destruct (decide (n = 0%N)); [done|].
  assert (Hpos : (0 < n)%N) by lia.
  rewrite pretty_N_go_step by done.
  intros Hempty.
  assert (Hlen : ∀ (x : N) s,
            (String.length s ≤ String.length (pretty_N_go x s))%nat).
  { intros x. induction (N.lt_wf_0 x) as [x _ IH]; intros s.
    destruct (decide (0 < x)%N).
    - rewrite pretty_N_go_step by done.
      etrans; [|apply IH; by apply N.div_lt]. simpl. lia.
    - assert (x = 0%N) as -> by lia. by rewrite pretty_N_go_0. }
  specialize (Hlen (n `div` 10)%N
                (String (pretty_N_char (n `mod` 10)) EmptyString)).
  rewrite Hempty in Hlen. simpl in Hlen. lia.
Qed.

(** X4. A [Content-Length] made of 1 to 4300 decimal digits and nothing
    else (leading zeros included) resolves to the number the digits
    denote, which is not negative; no warning is logged. *)
Theorem content_length_digits self rm cl :
  headers self !! "content-length" = Some cl →
  chunked self = false →
  no_body (status self) rm = false →
  digits_only cl = true → cl ≠ EmptyString →
  (String.length cl ≤ 4300)%nat →
  _init_length self rm = (Return (Some (numeral_value 0 cl)), [])
  ∧ 0 ≤ numeral_value 0 cl.
Proof.
  intros Hcl Hch Hnb Hdig Hne Hlen.
  pose proof (numeral_value_nonneg cl 0 ltac:(done)) as Hpos.
  split; [|done].
  unfold _init_length, finish_length. rewrite Hcl, Hch, Hnb.
  rewrite (parse_lengths_equal cl (numeral_value 0 cl)).
  - by destruct (Z.ltb_spec (numeral_value 0 cl) 0); [lia|].
  - rewrite (split_digits _ Hdig). repeat constructor.
    by apply int_digits.
Qed.

(** X5. The decimal numeral of a natural number [n], of at most 4300
    digits, written as the [Content-Length], resolves to [n]. *)
Theorem content_length_numeral self rm (n : N) :
  headers self !! "content-length" = Some (pretty n) →
  chunked self = false →
  no_body (status self) rm = false →
  (String.length (pretty n) ≤ 4300)%nat →
  _init_length self rm = (Return (Some (Z.of_N n)), []).
Proof.
  intros Hcl Hch Hnb Hlen.
  unfold _init_length, finish_length. rewrite Hcl, Hch, Hnb.
  rewrite (parse_lengths_equal (pretty n) (Z.of_N n)).
  - by destruct (Z.ltb_spec (Z.of_N n) 0); [lia|].
  - rewrite (split_digits _ (pretty_N_digits n)). repeat constructor.
    rewrite <- pretty_N_value.
    apply int_digits; [apply pretty_N_digits|apply pretty_N_nonempty|done].
Qed.

End Numerals.

(** * Operations in any order *)

Section Operations.

Implicit Types (self w : Wrapper) (s : IOBase) (amt : option Z).

Ltac evolves_basics :=
  split_and!; try done; try lia; try congruence; try (by left).

Lemma body_evolves_refl b0 : body_evolves b0 b0.
Proof. destruct b0; simpl; [done|]. split_and!; done. Qed.

Lemma body_evolves_trans b1 b2 b3 :
  body_evolves b1 b2 → body_evolves b2 b3 → body_evolves b1 b3.
Proof.
  destruct b1, b2, b3; simpl; try done; try congruence.
  - intros <- (? & _). congruence.
  - intros (? & ? & ? & ?) (? & ? & ? & ?). split_and!; [congruence|lia|lia|auto].
Qed.

Lemma evolves_refl w : evolves w w.
Proof.
  unfold evolves, pool_evolves, counter_evolves.
  split_and!; try done; [apply body_evolves_refl|by left|]. eauto with lia.
Qed.

Lemma evolves_trans w1 w2 w3 : evolves w1 w2 → evolves w2 w3 → evolves w1 w3.
Proof.
  intros (? & ? & ? & ? & ? & ? & Hb12 & Hp12 & Hc12 & Hm12)
         (? & ? & ? & ? & ? & ? & Hb23 & Hp23 & Hc23 & Hm23).
  unfold evolves. split_and!; try congruence.
  - by eapply body_evolves_trans.
  - destruct Hp12 as [[Hp Hc]|(pool & conn & Hp & Hc & Hp' & Hc')],
             Hp23 as [[Hq Hd]|(pool2 & conn2 & Hq & Hd & Hq' & Hd')].
    + left. split; congruence.
    + right. exists pool2, conn2. split_and!; congruence.
    + right. exists pool, conn. split_and!; congruence.
    + congruence.
  - split; [by auto|].
    intros s n Hb Hn. destruct (Hm12 s n Hb Hn) as (m & Hm & Hle).
    rewrite Hb in Hb12.
    destruct (body (_response w2)) as [|s2] eqn:Hb2; [done|].
    destruct (Hm23 s2 m eq_refl Hm) as (m' & Hm' & Hle').
    exists m'. split; [done|lia].
Qed.

(** [read] on an open stream without a counter: the bytes are taken (and
    cached when asked for), then the comparison of [None] with 0 raises. *)
Lemma read_open_unknown self s amt dc cc :
  body (_response self) = Stream s → amt_fits amt = true →
  io_closed s = false →
  length_remaining self = None →
  ∃ msg,
    read amt dc cc self
    = (Raise (TypeError msg),
       (match amt with
        | None => if cc then set__body (Some (io_chunk None s)) else id
        | Some _ => id
        end) (set_response_body (Stream (io_advance amt s)) self)).
Proof.
  intros Hb Hfit Hopen Hn. eexists. unfold read, bind.
  destruct amt as [k|];
    rewrite (wrap_body_stream _ _ Hb), (body_read_open _ _ _ Hb Hfit Hopen);
    [|destruct cc]; unfold set_attr, ret, count_down;
    simpl; rewrite Hn; reflexivity.
Qed.

Lemma read_evolves_stream self s amt dc cc :
  body (_response self) = Stream s →
  evolves self (snd (read amt dc cc self)).
Proof.
  intros Hb. destruct (amt_fits amt) eqn:Hfit; cycle 1.
  { rewrite (read_overflow _ _ _ _ _ Hb Hfit).
    unfold evolves, pool_evolves, counter_evolves. simpl. rewrite Hb. simpl.
    evolves_basics; eauto with lia. }
  destruct (io_closed s) eqn:Hcl.
  { rewrite (read_closed _ _ _ _ _ Hb Hfit Hcl).
    unfold evolves, pool_evolves, counter_evolves. simpl. rewrite Hb. simpl.
    evolves_basics; eauto with lia. }
  destruct (length_remaining self) as [n|] eqn:Hn.
  - assert (Hgen : ∀ w, headers w = headers self → status w = status self →
        chunked w = chunked self →
        status_code (_response w) = status_code (_response self) →
        resp_headers (_response w) = resp_headers (_response self) →
        request (_response w) = request (_response self) →
        body (_response w) = Stream (io_advance amt s) →
        _pool w = _pool self → _connection w = _connection self →
        length_remaining w = Some n →
        evolves self (counted n (io_chunk amt s) w)).
    { intros w ? ? ? ? ? ? Hbw ? ? Hnw.
      unfold evolves, pool_evolves, counter_evolves.
      rewrite counted_body, Hb, Hbw.
      unfold counted. destruct (Z.ltb_spec 0 n); simpl; evolves_basics.
      - intros _ m' [= <-]. lia.
      - intros s0 n0 _ Hn0. rewrite Hn in Hn0. injection Hn0 as <-.
        eexists. split; [done|]. unfold len. lia.
      - intros Hall m' Hm'. rewrite Hnw in Hm'. injection Hm' as <-.
        by apply Hall.
      - intros s0 n0 _ Hn0. rewrite Hn in Hn0. injection Hn0 as <-.
        exists n. rewrite Hnw. split; [done|lia]. }
    destruct amt as [k|].
    + rewrite (read_some_open _ _ _ _ _ _ Hb Hfit Hcl Hn). by apply Hgen.
    + rewrite (read_all_open _ _ _ _ _ Hb Hcl Hn).
      destruct cc; by apply Hgen.
  - destruct (read_open_unknown self s amt dc cc Hb Hfit Hcl Hn) as [msg ->].
    unfold evolves, pool_evolves, counter_evolves. rewrite Hb, Hn.
    destruct amt as [k|]; [|destruct cc]; simpl; evolves_basics.
Qed.

Lemma read_evolves self amt dc cc : evolves self (snd (read amt dc cc self)).
Proof.
  destruct (body (_response self)) as [buf|s] eqn:Hb.
  - rewrite (read_buffered _ _ _ _ _ Hb).
    eapply evolves_trans; [|by apply (read_evolves_stream _ (BytesIO buf))].
    unfold evolves, pool_evolves, counter_evolves. rewrite Hb. simpl.
    split_and!; try done; [by left|].
    intros _ m [= <-]. unfold len. lia.
  - by apply (read_evolves_stream _ s).
Qed.

Lemma read_chunked_evolves fuel : ∀ self amt dc,
  evolves self (snd (read_chunked fuel amt dc self)).
Proof.
  induction fuel as [|fuel IH]; intros self amt dc; simpl.
  - apply evolves_refl.
  - unfold read_chunked_next.
    pose proof (read_evolves self amt dc false) as Hstep.
    destruct (read amt dc false self) as [[[|c cs]|e] w1]; simpl in *;
      [done| |done].
    specialize (IH w1 amt dc).
    destruct (read_chunked fuel amt dc w1) as [[chunks ge] w2]. simpl in *.
    by eapply evolves_trans.
Qed.

Lemma data_evolves self : evolves self (snd (data self)).
Proof.
  unfold data. destruct (_body self) as [[|c cs]|];
    [apply read_evolves|apply evolves_refl|apply read_evolves].
Qed.

Lemma release_conn_evolves self : evolves self (snd (release_conn self)).
Proof.
  unfold release_conn.
  destruct (_pool self) as [pool|] eqn:Hp; [|apply evolves_refl].
  destruct (_connection self) as [conn|] eqn:Hc; [|apply evolves_refl].
  unfold evolves, pool_evolves, counter_evolves. simpl.
  split_and!; try done; [apply body_evolves_refl| |eauto with lia].
  right. exists pool, conn. done.
Qed.

Lemma close_evolves self : evolves self (snd (close self)).
Proof.
  unfold close.
  destruct (body (_response self)) as [buf|s] eqn:Hb; [apply evolves_refl|].
  unfold evolves, pool_evolves, counter_evolves. simpl. rewrite Hb. simpl.
  split_and!; try done; [by left|eauto with lia].
Qed.

Lemma retries_setter_evolves self r :
  evolves self (snd (retries_setter r self)).
Proof.
  unfold retries_setter, url_setter, bind, set_attr.
  destruct r as [given|]; [destruct (last (history given))|]; simpl;
    unfold evolves, pool_evolves, counter_evolves; simpl;
    (split_and!; try done; [apply body_evolves_refl|by left|eauto with lia]).
Qed.

Lemma run_op_evolves op self : evolves self (run_op op self).
Proof.
  destruct op; simpl.
  - apply read_evolves.
  - apply read_chunked_evolves.
  - apply data_evolves.
  - apply release_conn_evolves.
  - apply close_evolves.
  - apply close_evolves.
  - unfold evolves, pool_evolves, counter_evolves; simpl.
    split_and!; try done; [apply body_evolves_refl|by left|eauto with lia].
  - apply retries_setter_evolves.
Qed.

Lemma run_ops_evolves ops : ∀ self, evolves self (run_ops ops self).
Proof.
  induction ops as [|op ops IH]; intros self.
  - apply evolves_refl.
  - eapply evolves_trans; [apply (run_op_evolves op)|apply IH].
Qed.

End Operations.

(** * Reading to the end and reading again *)

Section ReadingOn.

Implicit Types (self w : Wrapper) (s : IOBase) (buf : bytes).

Lemma counted_at_end n w :
  length_remaining w = Some n → length_remaining (counted n [] w) = Some n.
Proof.
  intros Hn. unfold counted, len.
  destruct (Z.ltb_spec 0 n); simpl; [f_equal; lia|done].
Qed.

(** A [read(None)] at the end of the stream returns the empty bytes, keeps
    the counter, and leaves the stream at its end. *)
Lemma read_at_eof w dc cc :
  at_eof w →
  ∃ w', read None dc cc w = (Return [], w')
        ∧ at_eof w'
        ∧ length_remaining w' = length_remaining w
        ∧ _body w' = (if cc then Some [] else _body w)
        ∧ body_reads w' = S (body_reads w).
Proof.
  intros (s & n & Hb & Hopen & Hend & Hn).
  rewrite (read_all_open _ _ _ _ _ Hb Hopen Hn), Hend.
  eexists. split; [reflexivity|].
  destruct cc; simpl.
  - split_and!.
    + exists (io_advance None s), n. rewrite counted_body.
      split_and!; [done|done|apply io_chunk_at_end|].
      by apply counted_at_end.
    + rewrite Hn. by apply counted_at_end.
    + by rewrite counted__body.
    + unfold body_reads. by rewrite counted_body, Hb.
  - split_and!.
    + exists (io_advance None s), n. rewrite counted_body.
      split_and!; [done|done|apply io_chunk_at_end|].
      by apply counted_at_end.
    + rewrite Hn. by apply counted_at_end.
    + by rewrite counted__body.
    + unfold body_reads. by rewrite counted_body, Hb.
Qed.

(** A [read(None)] that returns leaves the stream at its end. *)
Lemma read_returns_at_eof self dc cc d self1 :
  read None dc cc self = (Return d, self1) → at_eof self1.
Proof.
  assert (Hstream : ∀ w s, body (_response w) = Stream s →
            read None dc cc w = (Return d, self1) → at_eof self1).
  { intros w s Hb Hread. destruct (io_closed s) eqn:Hcl.
    { by rewrite (read_closed _ _ None _ _ Hb eq_refl Hcl) in Hread. }
    destruct (length_remaining w) as [n|] eqn:Hn.
    - rewrite (read_all_open _ _ _ _ _ Hb Hcl Hn) in Hread.
      injection Hread as _ <-.
      destruct (counted_is_Some n (io_chunk None s)
                  ((if cc then set__body (Some (io_chunk None s)) else id)
                     (set_response_body (Stream (io_advance None s)) w)))
        as [m Hm].
      { destruct cc; simpl; rewrite Hn; eauto. }
      exists (io_advance None s), m. rewrite counted_body.
      split_and!; [by destruct cc|done|apply io_chunk_at_end|done].
    - destruct (read_open_unknown w s None dc cc Hb eq_refl Hcl Hn)
        as [msg Hr].
      by rewrite Hr in Hread. }
  destruct (body (_response self)) as [buf|s] eqn:Hb.
  - rewrite (read_buffered _ _ _ _ _ Hb). by apply (Hstream _ (BytesIO buf)).
  - by apply (Hstream _ s).
Qed.


Lemma read_buffered_whole self buf dc cc :
  body (_response self) = Buffered buf →
  ∃ self',
    read None dc cc self = (Return buf, self')
    ∧ length_remaining self' = Some 0
    ∧ _body self' = (if cc then Some buf else _body self)
    ∧ body (_response self')
      = Stream {| io_buf := buf; io_pos := length buf;
                  io_closed := false; io_reads := 1 |}.
Proof.
  intros Hb. rewrite (read_buffered _ _ _ _ _ Hb).
  rewrite (read_all_open _ (BytesIO buf) (len buf)); [|done..].
  assert (Hchunk : io_chunk None (BytesIO buf) = buf) by done.
  rewrite Hchunk. eexists. split; [reflexivity|].
  rewrite counted__body, counted_body. split_and!.
  - unfold counted, len. destruct (Z.ltb_spec 0 (Z.of_nat (length buf)));
      destruct cc; simpl; f_equal; lia.
  - by destruct cc.
  - destruct cc; simpl; unfold io_advance; by rewrite Hchunk.
Qed.

(** X7. The first [read(None)] of a buffered body returns the whole
    buffer, whatever [length_remaining] was before: the counter ends at 0,
    the stream at its end, and the bytes are cached exactly when
    [cache_content] is set. *)
Theorem read_all_buffered self buf dc cc :
  body (_response self) = Buffered buf →
  ∃ self',
    read None dc cc self = (Return buf, self')
    ∧ length_remaining self' = Some 0
    ∧ _body self' = (if cc then Some buf else _body self)
    ∧ body (_response self')
      = Stream {| io_buf := buf; io_pos := length buf;
                  io_closed := false; io_reads := 1 |}.
Proof. apply read_buffered_whole. Qed.

(** X8. Once a [read(None)] has returned, every further [read(None)]
    returns the empty bytes, as often as it is called, and the counter
    stays where the first read left it. *)
Theorem read_after_eof self dc cc d self1 :
  read None dc cc self = (Return d, self1) →
  ∀ (calls : list (option bool * bool)) dc' cc',
    let w := run_reads (map (λ c, (None, fst c, snd c)) calls) self1 in
    length_remaining w = length_remaining self1
    ∧ ∃ w', read None dc' cc' w = (Return [], w').
Proof.
  intros Hread calls dc' cc'.
  pose proof (read_returns_at_eof _ _ _ _ _ Hread) as Heof.
  clear Hread. revert self1 Heof.
  induction calls as [|[dc0 cc0] calls IH]; intros self1 Heof; simpl.
  - split; [done|].
    destruct (read_at_eof self1 dc' cc' Heof) as (w' & Hr & _). eauto.
  - destruct (read_at_eof self1 dc0 cc0 Heof) as (w1 & Hr & Heof1 & Hn1 & _).
    unfold run_reads in *. simpl. rewrite Hr. simpl.
    destruct (IH w1 Heof1) as [Hn Hex]. split; [congruence|done].
Qed.

(** After the first access, [data] over a buffered body answers from a
    non-empty cache, or from an empty stream at its end. *)
Lemma data_buffered_first self buf :
  body (_response self) = Buffered buf →
  _body self = None ∨ _body self = Some [] →
  ∃ self1, data self = (Return buf, self1)
           ∧ _body self1 = Some buf ∧ at_eof self1.
Proof.
  intros Hb Hun. rewrite (data_uncached _ Hun).
  pose proof (read_returns_at_eof self None true buf) as Heof.
  destruct (read_buffered_whole self buf None true Hb)
    as (self1 & Hr & _ & Hc & _).
  exists self1. split_and!; [done|done|]. by apply Heof.
Qed.

Lemma data_buffered_next w buf :
  _body w = Some buf → at_eof w →
  ∃ w', data w = (Return buf, w') ∧ _body w' = Some buf ∧ at_eof w'.
Proof.
  intros Hc Heof. destruct buf as [|c cs].
  - rewrite data_uncached by (by right).
    destruct (read_at_eof w None true Heof) as (w' & Hr & Heof' & _ & Hc' & _).
    exists w'. done.
  - exists w. by rewrite (data_cached _ _ _ Hc).
Qed.

Lemma data_after_data_buffered self buf k :
  body (_response self) = Buffered buf →
  _body self = None ∨ _body self = Some [] →
  ∃ w', data (after_data k self) = (Return buf, w').
Proof.
  intros Hb Hun.
  destruct (data_buffered_first self buf Hb Hun) as (self1 & Hd & Hc1 & He1).
  destruct k as [|k]; [simpl; eauto|].
  assert (Hinv : _body (after_data (S k) self) = Some buf
                 ∧ at_eof (after_data (S k) self)).
  { induction k as [|k IH].
    - unfold after_data. simpl. by rewrite Hd.
    - destruct IH as [Hc He].
      destruct (data_buffered_next _ buf Hc He) as (w' & Hd' & Hc' & He').
      change (after_data (S (S k)) self)
        with (snd (data (after_data (S k) self))).
      by rewrite Hd'. }
  destruct Hinv as [Hc He].
  destruct (data_buffered_next _ buf Hc He) as (w' & Hd' & _). eauto.
Qed.

(** X9. For a buffered body that is not cached yet, every access to
    [data] returns the bytes of the buffer, however many accesses came
    before, the empty buffer included. *)
Theorem data_stable self buf k :
  body (_response self) = Buffered buf →
  _body self = None ∨ _body self = Some [] →
  fst (data (after_data k self)) = Return buf.
Proof.
  intros Hb Hun.
  destruct (data_after_data_buffered self buf k Hb Hun) as [w' Hd].
  by rewrite Hd.
Qed.

(** X10. A [read(cache_content=True)] after the body was read to its end
    replaces the cache by the empty bytes: after [data] on a buffered body
    and such a read, [data] returns the empty bytes, whatever the buffer
    held. *)
Theorem cache_replaced_by_late_read self buf dc :
  body (_response self) = Buffered buf →
  _body self = None ∨ _body self = Some [] →
  ∃ self1 self2 self3,
    data self = (Return buf, self1)
    ∧ read None dc true self1 = (Return [], self2)
    ∧ _body self2 = Some []
    ∧ data self2 = (Return [], self3).
Proof.
  intros Hb Hun.
  destruct (data_buffered_first self buf Hb Hun) as (self1 & Hd & Hc1 & He1).
  destruct (read_at_eof self1 dc true He1) as (self2 & Hr & He2 & _ & Hc2 & _).
  destruct (data_buffered_next self2 [] Hc2 He2) as (self3 & Hd3 & _).
  exists self1, self2, self3. done.
Qed.

(** X11. Over an open stream whose length is unknown, the first access to
    [data] takes all the bytes, caches them and raises [TypeError]; when
    there were bytes, the next access returns them from the cache. *)
Theorem data_unknown_length self s :
  body (_response self) = Stream s → io_closed s = false →
  length_remaining self = None →
  _body self = None ∨ _body self = Some [] →
  ∃ msg self1,
    data self = (Raise (TypeError msg), self1)
    ∧ _body self1 = Some (io_chunk None s)
    ∧ (io_chunk None s ≠ [] → data self1 = (Return (io_chunk None s), self1)).
Proof.
  intros Hb Hopen Hn Hun. rewrite (data_uncached _ Hun).
  destruct (read_open_unknown self s None None true Hb eq_refl Hopen Hn) as [msg ->].
  eexists _, _. split; [reflexivity|]. split; [done|].
  intros Hne. destruct (io_chunk None s) as [|c cs] eqn:Hchunk; [done|].
  by apply data_cached.
Qed.

End ReadingOn.

(** * What no sequence of operations changes *)

Section Invariants.

Implicit Types (self w : Wrapper) (s : IOBase) (ops : list Op).

(** X12. Whatever operations are called and in whatever order, the pool
    is handed the connection at most once: either the pool and the handle
    are as they were, or the handle is cleared and the pool received
    exactly the connection the wrapper held. *)
Theorem connection_released_at_most_once ops self :
  (pool_returned (run_ops ops self) = pool_returned self
   ∧ _connection (run_ops ops self) = _connection self)
  ∨ (∃ conn, _connection self = Some conn
             ∧ _connection (run_ops ops self) = None
             ∧ pool_returned (run_ops ops self)
               = conn :: pool_returned self).
Proof.
  destruct (run_ops_evolves ops self)
    as (_ & _ & _ & _ & _ & _ & _ & Hpool & _).
  destruct Hpool as [[Hp Hc]|(pool & conn & Hp & Hc & Hp' & Hc')].
  - left. unfold pool_returned. by rewrite Hp.
  - right. exists conn. unfold pool_returned. by rewrite Hp, Hp'.
Qed.

(** X13. No operation replaces the bytes of the body: the content the
    body was created with stays the same, a stream body stays a stream
    that only moves forward, and a closed stream stays closed. *)
Theorem body_bytes_fixed ops self :
  body_content (run_ops ops self) = body_content self
  ∧ (∀ s, body (_response self) = Stream s →
          ∃ s', body (_response (run_ops ops self)) = Stream s'
                ∧ (io_pos s ≤ io_pos s')%nat
                ∧ (io_closed s = true → io_closed s' = true)).
Proof.
  destruct (run_ops_evolves ops self)
    as (_ & _ & _ & _ & _ & _ & Hbody & _).
  unfold body_content, body_evolves in *.
  destruct (body (_response self)) as [buf|s],
           (body (_response (run_ops ops self))) as [buf'|s']; try done.
  - destruct Hbody as (Hbuf & Hpos & _ & Hcl). split; [done|].
    intros s0 [= <-]. eauto.
Qed.


(** X15. With the counter set to what the Length Resolver returns, no
    sequence of operations makes it negative. *)
Theorem length_remaining_never_negative ops self rm lr warnings m :
  _init_length self rm = (Return lr, warnings) →
  length_remaining (run_ops ops (set_length_remaining lr self)) = Some m →
  0 ≤ m.
Proof.
  intros Hinit.
  destruct (run_ops_evolves ops (set_length_remaining lr self))
    as (_ & _ & _ & _ & _ & _ & _ & _ & Hnonneg & _).
  apply Hnonneg. simpl. intros n ->.
  by apply (_init_length_nonneg _ _ _ _ Hinit).
Qed.

(** X16. Over a stream body with a counter no operation makes the
    counter grow or disappear. *)
Theorem length_remaining_never_grows ops self s n :
  body (_response self) = Stream s →
  length_remaining self = Some n →
  ∃ m, length_remaining (run_ops ops self) = Some m ∧ m ≤ n.
Proof.
  intros Hb Hn.
  destruct (run_ops_evolves ops self)
    as (_ & _ & _ & _ & _ & _ & _ & _ & _ & Hmono).
  by apply (Hmono s).
Qed.

(** X17. The operations never touch the headers, the status or the
    [chunked] flag, so the Length Resolver gives the same answer after any
    sequence of operations as before it. *)
Theorem resolver_answer_fixed ops self rm :
  _init_length (run_ops ops self) rm = _init_length self rm.
Proof.
  destruct (run_ops_evolves ops self) as (Hh & Hs & Hc & _).
  unfold _init_length, finish_length. by rewrite Hh, Hs, Hc.
Qed.

(** X18. [close] and [drain_conn] set the closed flag of a stream body
    and nothing else: the connection is not handed to the pool, the
    counter and the cache stay, and a second call changes nothing. On a
    buffered body they do nothing at all. *)
Theorem close_only_closes self :
  drain_conn self = close self
  ∧ (close ;;; close) self = close self
  ∧ (∀ buf, body (_response self) = Buffered buf →
            close self = (Return tt, self))
  ∧ (∀ s, body (_response self) = Stream s →
          close self
          = (Return tt, set_response_body (Stream (io_close s)) self))
  ∧ pool_returned (snd (close self)) = pool_returned self
  ∧ _connection (snd (close self)) = _connection self
  ∧ length_remaining (snd (close self)) = length_remaining self
  ∧ _body (snd (close self)) = _body self.
Proof.
  unfold drain_conn, bind, close, pool_returned.
  destruct (body (_response self)) as [buf|s] eqn:Hb; simpl.
  - rewrite Hb. split_and!; done.
  - split_and!; try done. by intros s0 [= <-].
Qed.

(** X19. [close] and [drain_conn] before the first read of a buffered
    body do not keep it from being read: the next [read(None)] returns
    the whole buffer. *)
Theorem close_keeps_buffer_readable self buf dc cc :
  body (_response self) = Buffered buf →
  ∃ self',
    read None dc cc (run_ops [OpClose; OpDrainConn] self)
    = (Return buf, self').
Proof.
  intros Hb.
  assert (Hsame : run_ops [OpClose; OpDrainConn] self = self).
  { unfold run_ops, run_op, drain_conn, close. simpl.
    rewrite Hb. simpl. by rewrite Hb. }
  rewrite Hsame, (read_buffered _ _ _ _ _ Hb).
  rewrite (read_all_open _ (BytesIO buf) (len buf)); [|done..].
  eauto.
Qed.

End Invariants.

(** * JSON over a buffered body *)

Section JsonOfBuffer.

Context {text value : Type}.
Variable decode_utf8 : bytes → option text.
Variable loads : text → option value.

(** [json] changes the wrapper exactly as [data] does. *)
Lemma json_state self :
  snd (json text value decode_utf8 loads self) = snd (data self).
Proof.
  unfold json, bind, raise, ret.
  destruct (data self) as [[raw|e] w]; [|done].
  destruct (decode_utf8 raw) as [t|]; [|done]. by destruct (loads t).
Qed.

(** X20. Over a buffered body that is not cached yet, [json] gives what
    decoding and parsing the bytes of the buffer give, however many times
    [json] or [data] were called before. *)
Theorem json_of_buffer self buf k :
  body (_response self) = Buffered buf →
  _body self = None ∨ _body self = Some [] →
  fst (json text value decode_utf8 loads (after_data k self))
  = match decode_utf8 buf with
    | None => Raise UnicodeDecodeError
    | Some t =>
        match loads t with
        | None => Raise JSONDecodeError
        | Some v => Return v
        end
    end.
Proof.
  intros Hb Hun.
  destruct (data_after_data_buffered self buf k Hb Hun) as [w' Hd].
  unfold json, bind, raise, ret. rewrite Hd.
  destruct (decode_utf8 buf) as [t|]; [|done]. by destruct (loads t).
Qed.

End JsonOfBuffer.

(** * Releasing and reading *)

Section ReleaseAndRead.

Implicit Types (self : Wrapper).

Lemma read_set__pool p self amt dc cc :
  read amt dc cc (set__pool p self)
  = (fst (read amt dc cc self), set__pool p (snd (read amt dc cc self))).
Proof.
  destruct self as [p0 b0 [sc rh bd rq] u c rt h st ch lr].
  unfold read, bind, wrap_body, body_read, io_read, count_down, set_attr,
    ret, raise.
  destruct (amt_fits amt); simpl;
  destruct bd as [buf|[ibuf ipos [] ird]]; destruct amt as [k|], lr as [n|];
    try destruct cc; simpl;
    try destruct (k <? 0); simpl; try destruct (0 <? len _); simpl;
    try destruct (0 <? n); reflexivity.
Qed.

Lemma read_set__connection c self amt dc cc :
  read amt dc cc (set__connection c self)
  = (fst (read amt dc cc self),
     set__connection c (snd (read amt dc cc self))).
Proof.
  destruct self as [p0 b0 [sc rh bd rq] u c0 rt h st ch lr].
  unfold read, bind, wrap_body, body_read, io_read, count_down, set_attr,
    ret, raise.
  destruct (amt_fits amt); simpl;
  destruct bd as [buf|[ibuf ipos [] ird]]; destruct amt as [k|], lr as [n|];
    try destruct cc; simpl;
    try destruct (k <? 0); simpl; try destruct (0 <? len _); simpl;
    try destruct (0 <? n); reflexivity.
Qed.

Lemma read_keeps_pool self amt dc cc :
  _pool (snd (read amt dc cc self)) = _pool self
  ∧ _connection (snd (read amt dc cc self)) = _connection self.
Proof.
  destruct self as [p0 b0 [sc rh bd rq] u c0 rt h st ch lr].
  unfold read, bind, wrap_body, body_read, io_read, count_down, set_attr,
    ret, raise.
  destruct (amt_fits amt); simpl;
  destruct bd as [buf|[ibuf ipos [] ird]]; destruct amt as [k|], lr as [n|];
    try destruct cc; simpl;
    try destruct (k <? 0); simpl; try destruct (0 <? len _); simpl;
    try destruct (0 <? n); done.
Qed.

(** X21. Releasing the connection and reading do not interfere: a [read]
    gives the same result and does the same to the body, the counter and
    the cache whether [release_conn] was called before it or is called
    after it. *)
Theorem release_conn_keeps_reads self amt dc cc :
  fst (read amt dc cc (snd (release_conn self)))
  = fst (read amt dc cc self)
  ∧ snd (read amt dc cc (snd (release_conn self)))
    = snd (release_conn (snd (read amt dc cc self))).
Proof.
  destruct (read_keeps_pool self amt dc cc) as [Hp Hc].
  unfold release_conn. rewrite Hp, Hc.
  destruct (_pool self) as [pool|]; [|done].
  destruct (_connection self) as [conn|]; [|done]. simpl.
  by rewrite read_set__connection, read_set__pool.
Qed.

End ReleaseAndRead.

(** * The URL and the retries *)

Section Metadata.

Implicit Types (self : Wrapper) (ops : list Op).

Lemma read_keeps_metadata self amt dc cc :
  _url (snd (read amt dc cc self)) = _url self
  ∧ _retries (snd (read amt dc cc self)) = _retries self.
Proof.
  destruct self as [p0 b0 [sc rh bd rq] u c0 rt h st ch lr].
  unfold read, bind, wrap_body, body_read, io_read, count_down, set_attr,
    ret, raise.
  destruct (amt_fits amt); simpl;
  destruct bd as [buf|[ibuf ipos [] ird]]; destruct amt as [k|], lr as [n|];
    try destruct cc; simpl;
    try destruct (k <? 0); simpl; try destruct (0 <? len _); simpl;
    try destruct (0 <? n); done.
Qed.

Lemma read_chunked_keeps_metadata fuel : ∀ self amt dc,
  _url (snd (read_chunked fuel amt dc self)) = _url self
  ∧ _retries (snd (read_chunked fuel amt dc self)) = _retries self.
Proof.
  induction fuel as [|fuel IH]; intros self amt dc; simpl; [done|].
  unfold read_chunked_next.
  pose proof (read_keeps_metadata self amt dc false) as [Hu Hr].
  destruct (read amt dc false self) as [[[|c cs]|e] w1]; simpl in *;
    [done| |done].
  specialize (IH w1 amt dc).
  destruct (read_chunked fuel amt dc w1) as [[chunks ge] w2]. simpl in *.
  destruct IH as [Hu' Hr']. split; congruence.
Qed.

Lemma run_op_keeps_metadata op self :
  is_setter op = false →
  _url (run_op op self) = _url self
  ∧ _retries (run_op op self) = _retries self.
Proof.
  destruct op; simpl; try done; intros _.
  - apply read_keeps_metadata.
  - apply read_chunked_keeps_metadata.
  - unfold data. destruct (_body self) as [[|c cs]|];
      [apply read_keeps_metadata|done|apply read_keeps_metadata].
  - unfold release_conn.
    by destruct (_pool self), (_connection self).
  - unfold drain_conn, close. by destruct (body (_response self)).
  - unfold close. by destruct (body (_response self)).
Qed.

(** X22. Only the two setters change the URL and the retries: after any
    sequence of reads, chunked reads, [data] accesses, releases and
    closes, both are what they were. *)
Theorem url_changed_by_setters_only ops self :
  Forall (λ op, is_setter op = false) ops →
  url (run_ops ops self) = url self
  ∧ retries (run_ops ops self) = retries self.
Proof.
  unfold url, retries. intros Hops. revert self.
  induction Hops as [|op ops Hop _ IH]; intros self; [done|].
  destruct (run_op_keeps_metadata op self Hop) as [Hu Hr].
  destruct (IH (run_op op self)) as [Hu' Hr'].
  unfold run_ops in *. simpl. split; congruence.
Qed.

End Metadata.

(** * Instances of the further properties *)

Section MoreExamples.

Lemma resolver_returns_written_value_witness :
  42 = 0
  ∨ ∃ cl, headers (with_length "42, 42" 200 false) !! "content-length"
          = Some cl
          ∧ Forall (λ v, PyStr.int v = Some 42) (PyStr.split "," cl).
Proof.
  apply (resolver_returns_written_value (with_length "42, 42" 200 false)
           (Some "GET") 42 []).
  vm_compute. reflexivity.
Defined.

Lemma content_length_digits_witness :
  _init_length (with_length "007" 200 false) (Some "GET")
  = (Return (Some 7), []).
Proof.
  apply (content_length_digits (with_length "007" 200 false) (Some "GET")
           "007"); try reflexivity; [done|].
  apply Nat.leb_le. vm_compute. reflexivity.
Defined.

Lemma content_length_numeral_witness :
  _init_length (with_length (pretty 1234%N) 200 false) (Some "GET")
  = (Return (Some 1234), []).
Proof.
  apply (content_length_numeral (with_length (pretty 1234%N) 200 false)
           (Some "GET") 1234%N); try reflexivity.
  apply Nat.leb_le. vm_compute. reflexivity.
Defined.

Lemma read_all_buffered_witness :
  ∃ self',
    read None None false (buffered "hello" 200 (Some 2))
    = (Return (bytes_of "hello"), self')
    ∧ length_remaining self' = Some 0
    ∧ _body self' = None
    ∧ body (_response self')
      = Stream {| io_buf := bytes_of "hello"; io_pos := 5;
                  io_closed := false; io_reads := 1 |}.
Proof.
  exact (read_all_buffered (buffered "hello" 200 (Some 2))
           (bytes_of "hello") None false eq_refl).
Defined.

Lemma read_after_eof_witness :
  length_remaining
    (run_reads [(None, None, false); (None, None, true)]
       (snd (read None None false (streamed "hello" (Some 9)))))
  = length_remaining (snd (read None None false (streamed "hello" (Some 9))))
  ∧ ∃ w', read None None false
            (run_reads [(None, None, false); (None, None, true)]
               (snd (read None None false (streamed "hello" (Some 9)))))
          = (Return [], w').
Proof.
  apply (read_after_eof (streamed "hello" (Some 9)) None false
           (bytes_of "hello")
           (snd (read None None false (streamed "hello" (Some 9))))
           ltac:(vm_compute; reflexivity)
           [(None, false); (None, true)] None false).
Defined.

Lemma data_stable_witness :
  fst (data (after_data 3 (buffered "hello" 200 None)))
  = Return (bytes_of "hello")
  ∧ fst (data (after_data 3 (buffered "" 200 None))) = Return [].
Proof.
  split.
  - apply data_stable; [reflexivity|by left].
  - apply (data_stable (buffered "" 200 None) []); [reflexivity|by left].
Defined.

Lemma cache_replaced_by_late_read_witness :
  ∃ self1 self2 self3,
    data (buffered "hello" 200 None) = (Return (bytes_of "hello"), self1)
    ∧ read None None true self1 = (Return [], self2)
    ∧ _body self2 = Some []
    ∧ data self2 = (Return [], self3).
Proof.
  apply (cache_replaced_by_late_read (buffered "hello" 200 None)
           (bytes_of "hello") None); [reflexivity|by left].
Defined.

Lemma data_unknown_length_witness :
  ∃ msg self1,
    data (streamed "hello" None) = (Raise (TypeError msg), self1)
    ∧ _body self1 = Some (bytes_of "hello")
    ∧ (bytes_of "hello" ≠ [] →
       data self1 = (Return (bytes_of "hello"), self1)).
Proof.
  apply (data_unknown_length (streamed "hello" None)
           (BytesIO (bytes_of "hello"))); try reflexivity. by left.
Defined.

Lemma body_bytes_fixed_witness :
  body_content
    (run_ops [OpRead (Some 2) None false; OpClose; OpData]
       (streamed "hello" (Some 5)))
  = bytes_of "hello"
  ∧ ∃ s', body (_response
                  (run_ops [OpRead (Some 2) None false; OpClose; OpData]
                     (streamed "hello" (Some 5)))) = Stream s'
          ∧ (0 ≤ io_pos s')%nat.
Proof.
  destruct (body_bytes_fixed [OpRead (Some 2) None false; OpClose; OpData]
              (streamed "hello" (Some 5))) as [Hcontent Hstream].
  split; [exact Hcontent|].
  destruct (Hstream (BytesIO (bytes_of "hello")) eq_refl)
    as (s' & Hb & Hpos & _).
  exists s'. split; [exact Hb|exact Hpos].
Defined.


Lemma length_remaining_never_negative_witness :
  length_remaining
    (run_ops [OpRead (Some 1) None false; OpClose]
       (set_length_remaining (Some 2)
          (wrapper_of [("content-length", "2")] 200 false
             (Buffered (bytes_of "hello")) None))) = Some 4
  ∧ 0 ≤ 4.
Proof.
  assert (Hrun : length_remaining
            (run_ops [OpRead (Some 1) None false; OpClose]
               (set_length_remaining (Some 2)
                  (wrapper_of [("content-length", "2")] 200 false
                     (Buffered (bytes_of "hello")) None))) = Some 4)
    by (vm_compute; reflexivity).
  split; [exact Hrun|].
  apply (length_remaining_never_negative
           [OpRead (Some 1) None false; OpClose]
           (wrapper_of [("content-length", "2")] 200 false
              (Buffered (bytes_of "hello")) None)
           (Some "GET") (Some 2) [] 4);
    [vm_compute; reflexivity|exact Hrun].
Defined.

Lemma length_remaining_never_grows_witness :
  ∃ m, length_remaining
         (run_ops [OpRead (Some 2) None false; OpReleaseConn; OpData]
            (streamed "hello" (Some 9))) = Some m
       ∧ m ≤ 9.
Proof.
  exact (length_remaining_never_grows
           [OpRead (Some 2) None false; OpReleaseConn; OpData]
           (streamed "hello" (Some 9)) (BytesIO (bytes_of "hello")) 9
           eq_refl eq_refl).
Defined.

Lemma close_only_closes_witness :
  close (streamed "hello" (Some 5))
  = (Return tt,
     set_response_body (Stream (io_close (BytesIO (bytes_of "hello"))))
       (streamed "hello" (Some 5)))
  ∧ close (buffered "hello" 200 None)
    = (Return tt, buffered "hello" 200 None).
Proof.
  split.
  - destruct (close_only_closes (streamed "hello" (Some 5)))
      as (_ & _ & _ & Hstream & _).
    exact (Hstream (BytesIO (bytes_of "hello")) eq_refl).
  - destruct (close_only_closes (buffered "hello" 200 None))
      as (_ & _ & Hbuf & _).
    exact (Hbuf (bytes_of "hello") eq_refl).
Defined.

Lemma close_keeps_buffer_readable_witness :
  ∃ self',
    read None None false
      (run_ops [OpClose; OpDrainConn] (buffered "hello" 200 None))
    = (Return (bytes_of "hello"), self').
Proof.
  exact (close_keeps_buffer_readable (buffered "hello" 200 None)
           (bytes_of "hello") None false eq_refl).
Defined.

Lemma json_of_buffer_witness :
  fst (json string Literal decode_ascii loads_literal
         (after_data 2 (buffered "true" 200 None))) = Return JTrue
  ∧ fst (json string Literal decode_ascii loads_literal
           (after_data 0 (buffered "Hello, world!" 200 None)))
    = Raise JSONDecodeError.
Proof.
  split.
  - rewrite (json_of_buffer decode_ascii loads_literal
               (buffered "true" 200 None) (bytes_of "true") 2 eq_refl
               (or_introl eq_refl)).
    reflexivity.
  - rewrite (json_of_buffer decode_ascii loads_literal
               (buffered "Hello, world!" 200 None)
               (bytes_of "Hello, world!") 0 eq_refl (or_introl eq_refl)).
    reflexivity.
Defined.

Lemma read_chunked_all_witness :
  ∃ d self1 self2,
    read None None false (buffered "hello" 200 None) = (Return d, self1)
    ∧ read_chunked 2 None None (buffered "hello" 200 None)
      = (match d with [] => [] | _ => [d] end, Exhausted, self2)
    ∧ concat (match d with [] => [] | _ => [d] end) = d.
Proof.
  exact (read_chunked_all (buffered "hello" 200 None) None 0 I).
Defined.



Lemma url_changed_by_setters_only_witness :
  url (run_ops [OpData; OpClose; OpReleaseConn]
         (set__url (Some "/start") pooled)) = Some "/start"
  ∧ retries (run_ops [OpData; OpClose; OpReleaseConn]
               (set__url (Some "/start") pooled)) = None.
Proof.
  apply (url_changed_by_setters_only [OpData; OpClose; OpReleaseConn]
           (set__url (Some "/start") pooled)).
  repeat constructor.
Defined.

End MoreExamples.
